(** * Movie dashboard: the data pipeline of [app.py]

    A shallow embedding of the data-handling code of [src/app.py]
    (loading and cleaning, Top-N ranking, audience buckets, genre
    explosion and aggregation, language aggregation, insight rates and
    the effect of the analysis functions on the frame they receive),
    followed by the properties established for it.

    Conventions of the embedding.
    - A pandas cell that can be missing (NaN / NaT / None) is an [option];
      [None] is the missing value.  Every comparison with a missing value
      is [False], as in pandas.
    - Count-like columns of the domestic series (audiCnt, salesAmt,
      audiAcc, scrnCnt, year) hold integers ([Z]); ratings and popularity
      of the global catalog hold rationals ([Q]), every finite float being
      one.  Float rounding of quotients is not modelled: a quotient is the
      exact rational.
    - A Python [str] is the list of its Unicode code points.
    - A [DataFrame] is the list of its column names with the list of its
      rows; a function that assigns a column to the frame it was given
      returns the frame as it is after the call.  The load checks the
      columns it selects; elsewhere the columns a function reads are
      taken to exist, and only the tests the code itself makes
      (['genres' in kobis_df.columns] and the like) consult the list.
      The [KeyError] of an analysis function on a frame that lacks a
      column it reads without such a test (movieNm, audiAcc, scrnCnt,
      title, vote_count, popularity) is therefore not part of the
      embedding: a statement about a whole page run names these columns
      in a hypothesis.
    - A date cell is held as [pd.to_datetime(..., errors='coerce')]
      leaves it.  The conversion itself is not computed here: the frames
      given to the load are the frames as read with their date columns
      converted, and a conversion that raises (cells with mixed UTC
      offsets, say) counts with a [read_csv] that raises, as the absent
      input.
    - A computation that can raise returns an [option], [None] being the
      exception.
    - Only what the program computes is embedded; the calls that draw the
      page (streamlit, plotly) are not. *)

From Stdlib Require Import String Ascii.
From Stdlib Require Import List ZArith NArith QArith Qround Bool Lia Lqa.
From Stdlib Require Import Permutation Sorted.
Import ListNotations.

Set Implicit Arguments.

#[local] Open Scope Z_scope.

(** ** Python strings *)

Module PyStr.

Definition str := list N.

(** An ASCII literal as a [str]. *)
Definition lit (s : string) : str :=
  map (fun a => N_of_ascii a) (list_ascii_of_string s).

Definition eqb (a b : str) : bool :=
  if list_eq_dec N.eq_dec a b then true else false.

(** [str.isspace] on one code point (CPython's [_PyUnicode_IsWhitespace]). *)
Definition isspace (c : N) : bool :=
  ((9 <=? c) && (c <=? 13) || (28 <=? c) && (c <=? 32)
   || (c =? 133) || (c =? 160) || (c =? 5760)
   || (8192 <=? c) && (c <=? 8202)
   || (c =? 8232) || (c =? 8233) || (c =? 8239) || (c =? 8287)
   || (c =? 12288))%N.

Fixpoint lstrip (s : str) : str :=
  match s with
  | [] => []
  | c :: s' => if isspace c then lstrip s' else s
  end.

Definition rstrip (s : str) : str := rev (lstrip (rev s)).

(** [s.strip()] *)
Definition strip (s : str) : str := rstrip (lstrip s).

(** [s.split(sep)] for a one-character separator: never empty, and
    empty parts are kept. *)
Fixpoint split (sep : N) (s : str) : list str :=
  match s with
  | [] => [[]]
  | c :: s' =>
      if (c =? sep)%N then [] :: split sep s'
      else match split sep s' with
           | p :: ps => (c :: p) :: ps
           | [] => [[c]]
           end
  end.

(** Truthiness of a string: [if genre:] *)
Definition truthy (s : str) : bool :=
  match s with [] => false | _ :: _ => true end.

(** Code-point order, the order of Python's [<] on [str]. *)
Fixpoint compare (a b : str) : comparison :=
  match a, b with
  | [], [] => Eq
  | [], _ :: _ => Lt
  | _ :: _, [] => Gt
  | x :: a', y :: b' =>
      match N.compare x y with
      | Eq => compare a' b'
      | c => c
      end
  end.

Definition comma : N := 44.

End PyStr.

Abbreviation str := PyStr.str.

(** ** The pandas operations the program calls *)

Module Pandas.

(** [Series.dropna]: the present values, in order. *)
Definition dropna (A : Type) (s : list (option A)) : list A :=
  flat_map (fun o => match o with Some x => [x] | None => [] end) s.

Definition notna (A : Type) (o : option A) : bool :=
  match o with Some _ => true | None => false end.

(** [s.isna().all()]; [True] on an empty series. *)
Definition isna_all (A : Type) (s : list (option A)) : bool :=
  forallb (fun o => negb (notna o)) s.

(** [Series.count]: the number of present values. *)
Definition count (A : Type) (s : list (option A)) : nat :=
  length (dropna s).

Definition Zsum (l : list Z) : Z := fold_right Z.add 0 l.
Definition Qsum (l : list Q) : Q := fold_right Qplus 0%Q l.

(** [Series.sum] (skipna): missing values are skipped, and the sum of
    no value at all is 0. *)
Definition sum (s : list (option Z)) : Z := Zsum (dropna s).

(** [Series.mean] (skipna): the sum of the present values over their
    number; missing (NaN) when no value is present. *)
Definition mean (s : list (option Q)) : option Q :=
  match dropna s with
  | [] => None
  | v => Some (Qsum v / inject_Z (Z.of_nat (length v)))%Q
  end.

Definition meanZ (s : list (option Z)) : option Q :=
  mean (map (option_map inject_Z) s).

(** [round(0)] of a float: to the nearest integer, halves to even. *)
Definition round0 (q : Q) : Z :=
  let f := Qfloor q in
  let r := (q - inject_Z f)%Q in
  match Qcompare r (1 # 2) with
  | Lt => f
  | Gt => f + 1
  | Eq => if Z.even f then f else f + 1
  end.

(** *** [nlargest(n, column)] with the default [keep='first']

    pandas ([core/methods/selectn.py]) ranks the rows whose value is
    present by descending value, earlier rows first among equal values,
    appends the rows whose value is missing in their original order,
    and keeps the first [n] rows of that sequence; this is the documented
    [df.sort_values(column, ascending=False).head(n)]. *)
Section SelectN.
Variable A : Type.
Variable key : A -> option Q.

(** Insertion of a row that precedes, in the frame, every row of the
    ranked list: it passes the strictly larger values only. *)
Fixpoint insert_desc (q : Q) (x : A) (l : list (Q * A)) : list (Q * A) :=
  match l with
  | [] => [(q, x)]
  | (q', y) :: l' =>
      if Qle_bool q' q then (q, x) :: l
      else (q', y) :: insert_desc q x l'
  end.

Definition sort_desc (l : list (Q * A)) : list (Q * A) :=
  fold_right (fun p acc => insert_desc (fst p) (snd p) acc) [] l.

(** The rows with a present value, each with its value. *)
Definition dropped (rows : list A) : list (Q * A) :=
  flat_map (fun r => match key r with Some q => [(q, r)] | None => [] end)
           rows.

(** The rows with a missing value. *)
Definition nan_rows (rows : list A) : list A :=
  filter (fun r => negb (notna (key r))) rows.

Definition ranked (rows : list A) : list A :=
  map snd (sort_desc (dropped rows)).

Definition nlargest (n : nat) (rows : list A) : list A :=
  firstn n (ranked rows ++ nan_rows rows).
End SelectN.

(** *** [groupby(key)] with the defaults [sort=True], [dropna=True]

    The groups come in ascending key order, rows with a missing key
    belong to no group, and the rows of a group keep their order. *)
Section GroupBy.
Variables A K : Type.
Variable cmp : K -> K -> comparison.
Variable key : A -> option K.

Fixpoint insert_key (k : K) (l : list K) : list K :=
  match l with
  | [] => [k]
  | k' :: l' =>
      match cmp k k' with
      | Lt => k :: l
      | Eq => l
      | Gt => k' :: insert_key k l'
      end
  end.

Definition group_keys (rows : list A) : list K :=
  fold_right
    (fun r acc => match key r with Some k => insert_key k acc | None => acc end)
    [] rows.

Definition in_group (k : K) (r : A) : bool :=
  match key r with
  | Some k' => match cmp k k' with Eq => true | _ => false end
  | None => false
  end.

Definition get_group (k : K) (rows : list A) : list A :=
  filter (in_group k) rows.

Definition groupby (rows : list A) : list (K * list A) :=
  map (fun k => (k, get_group k rows)) (group_keys rows).
End GroupBy.

(** A descending sort of rows on an integer column, for
    [sort_values(column, ascending=False)].  Rows with equal values keep
    their order here; pandas' default sort (quicksort) does not promise
    an order among them, so only the order of distinct values is meant. *)
Definition sort_values_desc (A : Type) (col : A -> Z) (l : list A) : list A :=
  map snd (sort_desc (map (fun r => (inject_Z (col r), r)) l)).

End Pandas.

(** ** The two datasets *)

Record Date := mkDate { d_year : Z; d_month : Z; d_day : Z }.

Record DataFrame (R : Type) := mkFrame {
  columns : list string;
  rows : list R
}.

Definition has_column (R : Type) (c : string) (df : DataFrame R) : bool :=
  existsb (String.eqb c) (columns df).

(** [df.empty] *)
Definition empty (R : Type) (df : DataFrame R) : bool :=
  match rows df with [] => true | _ :: _ => false end.

(** [df[mask]]: the rows that pass, same columns. *)
Definition select (R : Type) (p : R -> bool) (df : DataFrame R) : DataFrame R :=
  mkFrame (columns df) (filter p (rows df)).

(** A row of the domestic box-office series.  [openDt] holds what
    [pd.to_datetime(..., errors='coerce')] makes of the cell: [None] for
    a missing or unparseable date.  [month] is the cell of the derived
    column ['month'], meaningful once that column exists. *)
Record KobisRow := mkKobis {
  movieNm : str;
  year : option Z;
  openDt : option Date;
  audiCnt : option Z;
  salesAmt : option Z;
  audiAcc : option Z;
  scrnCnt : option Z;
  genres : option str;
  month : option Z
}.

(** A row of the global catalog. *)
Record TmdbRow := mkTmdb {
  title : option str;
  t_year : option Z;
  release_date : option Date;
  vote_average : option Q;
  vote_count : option Z;
  popularity : option Q;
  original_language : option str
}.

(** Comparisons of a cell with a constant; [False] on a missing cell. *)
Definition cell_geZ (c : option Z) (k : Z) : bool :=
  match c with Some v => k <=? v | None => false end.
Definition cell_leZ (c : option Z) (k : Z) : bool :=
  match c with Some v => v <=? k | None => false end.
Definition cell_ltZ (c : option Z) (k : Z) : bool :=
  match c with Some v => v <? k | None => false end.
Definition cell_geQ (c : option Q) (k : Q) : bool :=
  match c with Some v => Qle_bool k v | None => false end.
Definition cell_leQ (c : option Q) (k : Q) : bool :=
  match c with Some v => Qle_bool v k | None => false end.
(** [Series.isin(values)] *)
Definition cell_isin (c : option Z) (vs : list Z) : bool :=
  match c with Some v => existsb (Z.eqb v) vs | None => false end.

(** ** The program *)

Module App.
Import Pandas.

Abbreviation KobisFrame := (DataFrame KobisRow).
Abbreviation TmdbFrame := (DataFrame TmdbRow).

(** *** [load_and_process_data]

    The argument is what the two [pd.read_csv] calls and the two
    [pd.to_datetime] calls deliver: the two frames, their date cells
    converted, and [None] when one of these calls raises.  (The
    conversion runs after the year filter; the date cell of a row that
    the year filter drops is never looked at.)  Selecting a column the
    frame does not have raises [KeyError]; every exception is caught and
    the function then returns [(None, None)], here [None]. *)

Definition current_year : Z := 2024.

Definition kobis_load_columns : list string :=
  ["year"; "openDt"; "audiCnt"; "salesAmt"]%string.
Definition tmdb_load_columns : list string :=
  ["year"; "release_date"; "vote_average"]%string.

Definition load_and_process_data (csv : option (KobisFrame * TmdbFrame))
  : option (KobisFrame * TmdbFrame) :=
  match csv with
  | None => None
  | Some (kobis_df, tmdb_df) =>
      if forallb (fun c => has_column c kobis_df) kobis_load_columns
         && forallb (fun c => has_column c tmdb_df) tmdb_load_columns
      then
        let kobis_df := select (fun r => cell_leZ (year r) current_year) kobis_df in
        let tmdb_df := select (fun r => cell_leZ (t_year r) current_year) tmdb_df in
        let kobis_df := select (fun r => cell_geZ (audiCnt r) 0) kobis_df in
        let kobis_df := select (fun r => cell_geZ (salesAmt r) 0) kobis_df in
        let tmdb_df :=
          select (fun r => cell_geQ (vote_average r) 0
                           && cell_leQ (vote_average r) 10) tmdb_df in
        Some (kobis_df, tmdb_df)
      else None
  end.

(** *** The derived column

    [kobis_df['month'] = kobis_df['openDt'].dt.month], the statement of
    [show_key_metrics] and [show_insights]: it writes the column into
    the frame object the function was given. *)

Definition set_month (m : option Z) (r : KobisRow) : KobisRow :=
  mkKobis (movieNm r) (year r) (openDt r) (audiCnt r) (salesAmt r)
          (audiAcc r) (scrnCnt r) (genres r) m.

Definition assign_month (kobis_df : KobisFrame) : KobisFrame :=
  mkFrame
    (if has_column "month" kobis_df then columns kobis_df
     else columns kobis_df ++ ["month"%string])
    (map (fun r => set_month (option_map d_month (openDt r)) r) (rows kobis_df)).

(** ['openDt' in kobis_df.columns and not kobis_df['openDt'].isna().all()] *)
Definition has_open_dates (kobis_df : KobisFrame) : bool :=
  has_column "openDt" kobis_df
  && negb (isna_all (map openDt (rows kobis_df))).

(** *** Exceptions

    A computation that can raise is an [option]: [None] is the
    exception. *)

Definition bind (A B : Type) (m : option A) (f : A -> option B) : option B :=
  match m with Some a => f a | None => None end.

Notation "x <- m ;; k" := (bind m (fun x => k))
  (at level 61, m at next level, right associativity).

(** *** [show_key_metrics] *)

(** The column [audiAcc] as a ranking key. *)
Definition audiAccQ (r : KobisRow) : option Q := option_map inject_Z (audiAcc r).

(** [kobis_df.loc[kobis_df['audiAcc'].idxmax()]]: the first row that
    holds the largest present value.  When no value is present [idxmax]
    has no label to give and the lookup raises. *)
Definition idxmax_row (df : list KobisRow) : option KobisRow :=
  hd_error (ranked audiAccQ df).

Record KeyMetrics := mkKeyMetrics {
  top_korean_movie : option KobisRow;
  total_audience : Z;
  avg_screen : option Q;
  top_rating : option Q;
  yearly_audience : list (Z * Z);
  monthly_releases : option (list (Z * nat))
}.

(** [Series.max] (skipna) of a column of rationals. *)
Definition Qmax_list (l : list Q) : option Q :=
  match l with
  | [] => None
  | x :: l' => Some (fold_left (fun m y => if Qle_bool m y then y else m) l' x)
  end.

(** The metrics shown, and the frame [kobis_df] as the call leaves it. *)
Definition show_key_metrics (kobis_df : KobisFrame) (tmdb_df : TmdbFrame)
  : option (KeyMetrics * KobisFrame) :=
  top_korean_movie <-
    (if negb (empty kobis_df)
     then r <- idxmax_row (rows kobis_df) ;; Some (Some r)
     else Some None) ;;
  let total_audience :=
    if negb (empty kobis_df) then sum (map audiAcc (rows kobis_df)) else 0 in
  let avg_screen :=
    if negb (empty kobis_df) then meanZ (map scrnCnt (rows kobis_df))
    else Some 0%Q in
  let top_rating :=
    if negb (empty tmdb_df) then Qmax_list (dropna (map vote_average (rows tmdb_df)))
    else Some 0%Q in
  let yearly_audience :=
    map (fun g => (fst g, sum (map audiCnt (snd g))))
        (groupby Z.compare year (rows kobis_df)) in
  if has_open_dates kobis_df then
    let kobis_df := assign_month kobis_df in
    let monthly_releases :=
      map (fun g => (fst g, length (snd g)))
          (groupby Z.compare month (rows kobis_df)) in
    Some (mkKeyMetrics top_korean_movie total_audience avg_screen top_rating
                       yearly_audience (Some monthly_releases), kobis_df)
  else
    Some (mkKeyMetrics top_korean_movie total_audience avg_screen top_rating
                       yearly_audience None, kobis_df).

(** *** [show_korean_analysis] *)

(** [range(1, len(top) + 1)] beside the rows: the column 순위. *)
Definition numbered (A : Type) (l : list A) : list (nat * A) :=
  combine (seq 1 (length l)) l.

(** [kobis_df.nlargest(10, 'audiAcc')], numbered. *)
Definition top_movies (kobis_df : KobisFrame) : list (nat * KobisRow) :=
  numbered (nlargest audiAccQ 10 (rows kobis_df)).

(** The five counts of the audience distribution, in the order of
    [audience_ranges]. *)
Definition audience_counts (kobis_df : KobisFrame) : list nat :=
  let df := rows kobis_df in
  [ length (filter (fun r => cell_ltZ (audiAcc r) 100000) df);
    length (filter (fun r => cell_geZ (audiAcc r) 100000
                             && cell_ltZ (audiAcc r) 1000000) df);
    length (filter (fun r => cell_geZ (audiAcc r) 1000000
                             && cell_ltZ (audiAcc r) 5000000) df);
    length (filter (fun r => cell_geZ (audiAcc r) 5000000
                             && cell_ltZ (audiAcc r) 10000000) df);
    length (filter (fun r => cell_geZ (audiAcc r) 10000000) df) ].

(** One entry of [genre_data]. *)
Record GenreRow := mkGenreRow {
  genre : str;
  g_audiCnt : Z;
  g_salesAmt : Z
}.

(** The body of the loop over [kobis_df.iterrows()], for one row. *)
Definition explode_row (row : KobisRow) : list GenreRow :=
  match genres row with
  | Some g =>
      flat_map
        (fun genre =>
           let genre := PyStr.strip genre in
           if PyStr.truthy genre then
             [ mkGenreRow genre
                 (match audiCnt row with Some a => a | None => 0 end)
                 (match salesAmt row with Some a => a | None => 0 end) ]
           else [])
        (PyStr.split PyStr.comma g)
  | None => []
  end.

Definition genre_data (kobis_df : KobisFrame) : list GenreRow :=
  flat_map explode_row (rows kobis_df).

(** One row of [genre_summary]; the columns are 총관객수, 평균관객수,
    영화수 and 총매출. *)
Record GenreSummary := mkGenreSummary {
  gs_genre : str;
  gs_sum : Z;
  gs_mean : option Z;
  gs_count : nat;
  gs_sales : Z
}.

(** The grouping key of [genre_df.groupby('genre')]: never missing. *)
Definition genre_key (r : GenreRow) : option str := Some (genre r).

(** [genre_df.groupby('genre').agg({'audiCnt': ['sum', 'mean', 'count'],
    'salesAmt': 'sum'}).round(0)] *)
Definition genre_agg (genre_df : list GenreRow) : list GenreSummary :=
  map (fun g =>
         let audi := map (fun r => Some (g_audiCnt r)) (snd g) in
         let sales := map (fun r => Some (g_salesAmt r)) (snd g) in
         mkGenreSummary (fst g) (sum audi) (option_map round0 (meanZ audi))
                        (count audi) (sum sales))
      (groupby PyStr.compare genre_key genre_df).

(** [genre_summary]: [None] when the genre section is not computed. *)
Definition genre_summary (kobis_df : KobisFrame) : option (list GenreSummary) :=
  if has_column "genres" kobis_df
     && negb (isna_all (map genres (rows kobis_df)))
  then
    match genre_data kobis_df with
    | [] => None
    | genre_df => Some (firstn 8 (sort_values_desc gs_sum (genre_agg genre_df)))
    end
  else None.

Record KoreanAnalysis := mkKoreanAnalysis {
  ka_top_movies : list (nat * KobisRow);
  ka_audience_counts : list nat;
  ka_genre_summary : option (list GenreSummary)
}.

(** [top_movies['year'].astype(int)] raises on a missing year. *)
Definition years_castable (top : list (nat * KobisRow)) : bool :=
  forallb (fun e => notna (year (snd e))) top.

(** The inner [None] is the early return on an empty frame. *)
Definition show_korean_analysis (kobis_df : KobisFrame)
  : option (option KoreanAnalysis) :=
  if empty kobis_df then Some None
  else
    let top := top_movies kobis_df in
    if years_castable top then
      Some (Some (mkKoreanAnalysis top (audience_counts kobis_df)
                                   (genre_summary kobis_df)))
    else None.

(** *** [show_global_analysis] *)

(** One row of [lang_analysis]; the columns are 언어, 영화수, 평균평점 and
    평균인기도. *)
Record LangSummary := mkLangSummary {
  ls_language : str;
  ls_count : nat;
  ls_rating : option Q;
  ls_popularity : option Q
}.

(** [tmdb_df.groupby('original_language').agg({'title': 'count',
    'vote_average': 'mean', 'popularity': 'mean'})] *)
Definition lang_agg (tmdb_df : list TmdbRow) : list LangSummary :=
  map (fun g =>
         mkLangSummary (fst g)
                       (count (map title (snd g)))
                       (mean (map vote_average (snd g)))
                       (mean (map popularity (snd g))))
      (groupby PyStr.compare original_language tmdb_df).

Definition lang_analysis (tmdb_df : TmdbFrame) : option (list LangSummary) :=
  if has_column "original_language" tmdb_df then
    Some (firstn 10 (sort_values_desc (fun l => Z.of_nat (ls_count l))
                                      (lang_agg (rows tmdb_df))))
  else None.

Record GlobalAnalysis := mkGlobalAnalysis {
  ga_top_rated : list (nat * TmdbRow);
  ga_top_popular : list (nat * TmdbRow);
  ga_lang_analysis : option (list LangSummary)
}.

Definition show_global_analysis (tmdb_df : TmdbFrame) : option GlobalAnalysis :=
  if empty tmdb_df then None
  else Some (mkGlobalAnalysis
               (numbered (nlargest vote_average 10 (rows tmdb_df)))
               (numbered (nlargest popularity 10 (rows tmdb_df)))
               (lang_analysis tmdb_df)).

(** *** [show_insights] *)

(** Python's [a / b] on integers: the quotient, [ZeroDivisionError]
    when [b] is 0. *)
Definition truediv (a b : Z) : option Q :=
  if b =? 0 then None else Some (inject_Z a / inject_Z b)%Q.

(** [(count / total * 100) if total > 0 else 0], the expression of the
    three rates. *)
Definition rate (count total : Z) : option Q :=
  if 0 <? total then q <- truediv count total ;; Some (q * 100)%Q
  else Some 0%Q.

Definition len (A : Type) (l : list A) : Z := Z.of_nat (length l).

Definition total_movies (kobis_df : KobisFrame) : Z := len (rows kobis_df).

Definition blockbuster_count (kobis_df : KobisFrame) : Z :=
  len (filter (fun r => cell_geZ (audiAcc r) 10000000) (rows kobis_df)).

Definition blockbuster_rate (kobis_df : KobisFrame) : option Q :=
  rate (blockbuster_count kobis_df) (total_movies kobis_df).

(** To be read on the frame once ['month'] is assigned. *)
Definition summer_movies (kobis_df : KobisFrame) : Z :=
  len (filter (fun r => cell_isin (month r) [6; 7; 8]) (rows kobis_df)).

Definition total_with_date (kobis_df : KobisFrame) : Z :=
  len (filter (fun r => notna (openDt r)) (rows kobis_df)).

Definition summer_rate (kobis_df : KobisFrame) : option Q :=
  rate (summer_movies kobis_df) (total_with_date kobis_df).

Definition high_rated (tmdb_df : TmdbFrame) : Z :=
  len (filter (fun r => cell_geQ (vote_average r) 8) (rows tmdb_df)).

Definition quality_rate (tmdb_df : TmdbFrame) : option Q :=
  rate (high_rated tmdb_df) (len (rows tmdb_df)).

(** [tmdb_df['original_language'].nunique()] *)
Definition unique_languages (tmdb_df : TmdbFrame) : nat :=
  length (group_keys PyStr.compare original_language (rows tmdb_df)).

(** The figures of the insight boxes; a field is [None] when its box is
    not produced. *)
Record Insights := mkInsights {
  i_blockbuster_rate : option Q;
  i_summer_rate : option Q;
  i_quality_rate : option Q;
  i_unique_languages : option nat
}.

(** The insights, and the frame [kobis_df] as the call leaves it. *)
Definition show_insights (kobis_df : KobisFrame) (tmdb_df : TmdbFrame)
  : option (Insights * KobisFrame) :=
  korean <-
    (if negb (empty kobis_df) then
       b <- blockbuster_rate kobis_df ;;
       if has_open_dates kobis_df then
         let kobis_df := assign_month kobis_df in
         s <- summer_rate kobis_df ;;
         Some (Some b, Some s, kobis_df)
       else Some (Some b, None, kobis_df)
     else Some (None, None, kobis_df)) ;;
  global <-
    (if negb (empty tmdb_df) then
       q <- quality_rate tmdb_df ;;
       Some (Some q,
             if has_column "original_language" tmdb_df
             then Some (unique_languages tmdb_df) else None)
     else Some (None, None)) ;;
  let '(b, s, kobis_df) := korean in
  let '(q, u) := global in
  Some (mkInsights b s q u, kobis_df).

(** *** [main] *)

Definition recent_years : list Z := [2022; 2023; 2024].

Record Dashboard := mkDashboard {
  tab1 : KeyMetrics;
  tab2 : option KoreanAnalysis;
  tab3 : option GlobalAnalysis;
  tab4 : Insights
}.

(** The four tabs share the one frame [kobis_recent]: each call gets the
    frame as the previous call left it.  [None]: the page stops or an
    exception escapes. *)
Definition main (csv : option (KobisFrame * TmdbFrame)) : option Dashboard :=
  loaded <- load_and_process_data csv ;;
  let '(kobis_df, tmdb_df) := loaded in
  let kobis_recent := select (fun r => cell_isin (year r) recent_years) kobis_df in
  let tmdb_recent := select (fun r => cell_isin (t_year r) recent_years) tmdb_df in
  r1 <- show_key_metrics kobis_recent tmdb_recent ;;
  let '(t1, kobis_recent) := r1 in
  t2 <- show_korean_analysis kobis_recent ;;
  let t3 := show_global_analysis tmdb_recent in
  r4 <- show_insights kobis_recent tmdb_recent ;;
  Some (mkDashboard t1 t2 t3 (fst r4)).

End App.

(** ** Vocabulary of the statements *)

Module Stmt.
Import Pandas App.

Definition str_eq_dec : forall a b : str, {a = b} + {a <> b} :=
  list_eq_dec N.eq_dec.

(** The comma-separated parts of a record's genre cell. *)
Definition parts (row : KobisRow) : list str :=
  match genres row with
  | Some g => PyStr.split PyStr.comma g
  | None => []
  end.

(** The surviving labels of a record: its trimmed, non-empty parts. *)
Definition labels (row : KobisRow) : list str :=
  filter PyStr.truthy (map PyStr.strip (parts row)).

(** The metric values an exploded row carries. *)
Definition audiCnt0 (row : KobisRow) : Z :=
  match audiCnt row with Some a => a | None => 0 end.
Definition salesAmt0 (row : KobisRow) : Z :=
  match salesAmt row with Some a => a | None => 0 end.

(** How often a record lists the label [g]. *)
Definition occurrences (g : str) (row : KobisRow) : Z :=
  Z.of_nat (count_occ str_eq_dec (labels row) g).

Definition kobis_columns : list string :=
  ["movieNm"; "year"; "openDt"; "audiCnt"; "salesAmt"; "audiAcc";
   "scrnCnt"; "genres"]%string.

Definition tmdb_columns : list string :=
  ["title"; "year"; "release_date"; "vote_average"; "vote_count";
   "popularity"; "original_language"]%string.

(** A domestic record given by its audience count and genre cell. *)
Definition record (name : string) (audience : option Z) (g : string) : KobisRow :=
  mkKobis (PyStr.lit name) (Some 2023) None audience (Some 0) None None
          (Some (PyStr.lit g)) None.

(** The two records of the genre scenario. *)
Definition scenario : KobisFrame :=
  mkFrame kobis_columns
          [ record "A" (Some 12000000) "Action,Drama";
            record "B" (Some 500000) "Drama" ].

Definition drama_summary : GenreSummary :=
  mkGenreSummary (PyStr.lit "Drama") 12500000 (Some 6250000) 2 0.
Definition action_summary : GenreSummary :=
  mkGenreSummary (PyStr.lit "Action") 12000000 (Some 12000000) 1 0.

(** Two Drama records, the first with a missing audience count. *)
Definition missing_and_ten : KobisFrame :=
  mkFrame kobis_columns [ record "X" None "Drama"; record "Y" (Some 10) "Drama" ].

(** One Drama record, its audience count missing. *)
Definition only_missing : KobisFrame :=
  mkFrame kobis_columns [ record "X" None "Drama" ].

(** A catalog entry given by its rating, popularity and language. *)
Definition film (name : string) (rating popular : option Q) (lang : string) : TmdbRow :=
  mkTmdb (Some (PyStr.lit name)) (Some 2023) None rating (Some 100) popular
         (Some (PyStr.lit lang)).

Definition catalog : TmdbFrame :=
  mkFrame tmdb_columns
          [ film "P" (Some (17 # 2)%Q) None "en";
            film "Q" None None "en";
            film "R" (Some 9%Q) (Some 3%Q) "ko" ].

Definition en_summary : LangSummary :=
  mkLangSummary (PyStr.lit "en") 2 (Some (17 # 2)%Q) None.

(** A record whose genre cell repeats a label. *)
Definition drama_drama : KobisRow := record "D" (Some 7) "Drama,Drama".

(** Ranking vocabulary, for rows ranked on [key]. *)
Section Ranking.
Variable A : Type.
Variable key : A -> option Q.

Definition valid (r : A) : bool := notna (key r).

(** The row's value is present and equals [v]. *)
Definition has_value (v : Q) (r : A) : bool :=
  match key r with Some q => Qeq_bool q v | None => false end.

(** Both values are present and the first is at least the second. *)
Definition ranks_before (a b : A) : Prop :=
  match key a, key b with
  | Some x, Some y => (y <= x)%Q
  | _, _ => False
  end.
End Ranking.

(** A domestic record given by its cumulative audience. *)
Definition acc (name : string) (a : option Z) : KobisRow :=
  mkKobis (PyStr.lit name) (Some 2023) None (Some 1) (Some 1) a None None None.

(** A frame of two records, the second with a missing cumulative
    audience. *)
Definition one_valid_one_missing : KobisFrame :=
  mkFrame kobis_columns [ acc "V" (Some 5); acc "N" None ].

Definition one_valid : KobisFrame := mkFrame kobis_columns [ acc "V" (Some 5) ].

(** The audience bucket of a value: the first has no lower bound, the
    last no upper bound. *)
Definition bucket_of (x : Z) : nat :=
  if x <? 100000 then 0
  else if x <? 1000000 then 1
  else if x <? 5000000 then 2
  else if x <? 10000000 then 3
  else 4.

(** The row's cumulative audience is present and falls in bucket [i]. *)
Definition in_bucket (i : nat) (r : KobisRow) : bool :=
  match audiAcc r with
  | Some x => Nat.eqb (bucket_of x) i
  | None => false
  end.

(** The number of rows whose cumulative audience is missing. *)
Definition excluded (kobis_df : KobisFrame) : nat :=
  length (filter (fun r => negb (notna (audiAcc r))) (rows kobis_df)).

(** A domestic record with a negative audience count. *)
Definition negative_count : KobisRow :=
  mkKobis (PyStr.lit "Neg") (Some 2023) None (Some (-1)) (Some 7) (Some 9)
          (Some 3) (Some (PyStr.lit "Drama")) None.

(** A catalog entry rated above 10. *)
Definition overrated : TmdbRow := film "O" (Some 11%Q) (Some 1%Q) "en".

(** The catalog as cleaning leaves it: the entry without rating is gone. *)
Definition catalog_clean : TmdbFrame :=
  mkFrame tmdb_columns
          [ film "P" (Some (17 # 2)%Q) None "en";
            film "R" (Some 9%Q) (Some 3%Q) "ko" ].

(** What cleaning asks of a domestic row, and of a catalog row. *)
Definition kobis_kept (r : KobisRow) : bool :=
  cell_leZ (year r) current_year
  && (cell_geZ (audiCnt r) 0 && cell_geZ (salesAmt r) 0).

Definition tmdb_kept (r : TmdbRow) : bool :=
  cell_leZ (t_year r) current_year
  && (cell_geQ (vote_average r) 0 && cell_leQ (vote_average r) 10).

(** A frame whose only record reached ten million. *)
Definition all_blockbusters : KobisFrame :=
  mkFrame kobis_columns [ acc "M" (Some 10000000) ].

(** A frame of one record opened on 1 July 2023, without a ['month']
    column. *)
Definition dated : KobisFrame :=
  mkFrame kobis_columns
          [ mkKobis (PyStr.lit "J") (Some 2023) (Some (mkDate 2023 7 1))
                    (Some 1) (Some 1) (Some 5) None None None ].

(** The key metrics of the dated frame beside the catalog. *)
Definition dated_metrics : KeyMetrics :=
  Eval vm_compute in
    match show_key_metrics dated catalog with
    | Some (m, _) => m
    | None => mkKeyMetrics None 0 None None [] None
    end.

(** The part of a cell that a skipping sum adds. *)
Definition or_zero (c : option Z) : Z :=
  match c with Some v => v | None => 0 end.

(** The pre-filter of [main]: the year is one of the recent years. *)
Definition recent (r : KobisRow) : bool := cell_isin (year r) recent_years.

(** The columns the load selects, all present. *)
Definition load_columns_present (kobis_df : KobisFrame) (tmdb_df : TmdbFrame)
  : bool :=
  forallb (fun c => has_column c kobis_df) kobis_load_columns
  && forallb (fun c => has_column c tmdb_df) tmdb_load_columns.

(** The language chart of the catalog. *)
Definition catalog_languages : list LangSummary :=
  Eval vm_compute in
    match lang_analysis catalog with Some ls => ls | None => [] end.

(** The insights of the dated frame beside the catalog. *)
Definition dated_insights : Insights :=
  Eval vm_compute in
    match show_insights dated catalog with
    | Some (i, _) => i
    | None => mkInsights None None None None
    end.

(** A record with a cumulative audience whose genre cell repeats its
    one label, and the frame of that record. *)
Definition twice_drama : KobisRow :=
  mkKobis (PyStr.lit "D") (Some 2023) None (Some 7) (Some 0) (Some 7) None
          (Some (PyStr.lit "Drama,Drama")) None.

Definition repeated : KobisFrame := mkFrame kobis_columns [ twice_drama ].

Definition twice_drama_summary : GenreSummary :=
  mkGenreSummary (PyStr.lit "Drama") 14 (Some 7) 2 0.

(** The distinct labels of a record, in order of first listing. *)
Definition distinct_labels (row : KobisRow) : list str :=
  nodup str_eq_dec (labels row).

(** The genre scenario with white space around the labels. *)
Definition scenario_spaced : KobisFrame :=
  mkFrame kobis_columns
          [ record "A" (Some 12000000) " Action , Drama";
            record "B" (Some 500000) "Drama  " ].

Definition all_space (s : str) : Prop := Forall (fun c => PyStr.isspace c = true) s.

(** [g] is [p] without its leading and trailing white space: what is
    cut off at both ends is white space, and what is left, if anything,
    begins and ends with a character that is not. *)
Definition trimmed (p g : str) : Prop :=
  (exists pre post, p = pre ++ g ++ post /\ all_space pre /\ all_space post)
  /\ (g = []
      \/ exists c t d u, g = c :: t /\ PyStr.isspace c = false
                         /\ rev g = d :: u /\ PyStr.isspace d = false).

(** The number of listings of [g] by records whose audience count is
    present: the valid contributions to the group of [g]. *)
Definition valid_listings (g : str) (records : list KobisRow) : Z :=
  Zsum (map (fun row => if notna (audiCnt row) then occurrences g row else 0)
            records).

(** The audience of those listings, and their sales. *)
Definition valid_audience (g : str) (records : list KobisRow) : Z :=
  Zsum (map (fun row => match audiCnt row with
                        | Some a => occurrences g row * a
                        | None => 0
                        end) records).

Definition valid_sales (g : str) (records : list KobisRow) : Z :=
  Zsum (map (fun row => match salesAmt row with
                        | Some a => occurrences g row * a
                        | None => 0
                        end) records).

(** The loaded series of [missing_and_ten]: the record without an
    audience count is gone. *)
Definition only_ten : KobisFrame :=
  mkFrame kobis_columns [ record "Y" (Some 10) "Drama" ].

Definition ten_summary : GenreSummary :=
  mkGenreSummary (PyStr.lit "Drama") 10 (Some 10) 1 0.

(** The English entries of the cleaned catalog. *)
Definition en_clean_summary : LangSummary :=
  mkLangSummary (PyStr.lit "en") 1 (Some (17 # 2)%Q) None.

(** The pre-filter of [main] on the catalog. *)
Definition recent_entry (r : TmdbRow) : bool := cell_isin (t_year r) recent_years.

(** Two records agree on every field but the derived month. *)
Definition same_but_month (r' r : KobisRow) : Prop :=
  movieNm r' = movieNm r /\ year r' = year r /\ openDt r' = openDt r
  /\ audiCnt r' = audiCnt r /\ salesAmt r' = salesAmt r
  /\ audiAcc r' = audiAcc r /\ scrnCnt r' = scrnCnt r
  /\ genres r' = genres r.

(** The frame has the column of opening dates and a record with a valid
    opening date. *)
Definition dates_present (kobis_df : KobisFrame) : Prop :=
  In "openDt"%string (columns kobis_df)
  /\ exists r, In r (rows kobis_df) /\ openDt r <> None.

(** The record is of year [y]; the record opened in month [mo]. *)
Definition in_year (y : Z) (r : KobisRow) : bool :=
  match year r with Some v => v =? y | None => false end.

Definition opened_in (mo : Z) (r : KobisRow) : bool :=
  match openDt r with Some d => d_month d =? mo | None => false end.

(** The columns the page reads without testing for them. *)
Definition kobis_page_columns : list string :=
  ["movieNm"; "year"; "openDt"; "audiCnt"; "salesAmt"; "audiAcc";
   "scrnCnt"]%string.

Definition tmdb_page_columns : list string :=
  ["title"; "year"; "release_date"; "vote_average"; "vote_count";
   "popularity"]%string.

Definition page_columns_present (kobis_df : KobisFrame) (tmdb_df : TmdbFrame)
  : bool :=
  forallb (fun c => has_column c kobis_df) kobis_page_columns
  && forallb (fun c => has_column c tmdb_df) tmdb_page_columns.

End Stmt.

(** ** Properties *)

Import Pandas App Stmt.

Example split_two :
  PyStr.split PyStr.comma (PyStr.lit "Action, Drama")
  = [PyStr.lit "Action"; PyStr.lit " Drama"].
Proof. reflexivity. Qed.

Example strip_both : PyStr.strip (PyStr.lit "  Drama ") = PyStr.lit "Drama".
Proof. reflexivity. Qed.

(** *** Strings *)

Lemma compare_refl (a : str) : PyStr.compare a a = Eq.
Proof.
  induction a as [|x a IH]; simpl; [reflexivity|].
  now rewrite N.compare_refl.
Qed.

Lemma compare_eq (a b : str) : PyStr.compare a b = Eq -> a = b.
Proof.
  revert b; induction a as [|x a IH]; intros [|y b]; simpl; try discriminate.
  - reflexivity.
  - destruct (N.compare_spec x y) as [-> | |]; try discriminate.
    intros H; f_equal; auto.
Qed.

Lemma split_no_sep (sep : N) (s : str) :
  Forall (fun p => ~ In sep p) (PyStr.split sep s).
Proof.
  induction s as [|c s IH]; simpl; [repeat constructor; auto|].
  destruct (N.eqb_spec c sep) as [->|Hc].
  - constructor; [auto | exact IH].
  - destruct (PyStr.split sep s) as [|p ps].
    + repeat constructor. intros [H|[]]. now apply Hc.
    + inversion IH as [|? ? Hp Hps]; subst.
      constructor; [|exact Hps].
      intros [H|H]; [now apply Hc | now apply Hp].
Qed.

Lemma lstrip_in (s : str) (c : N) : In c (PyStr.lstrip s) -> In c s.
Proof.
  induction s as [|x s IH]; simpl; [tauto|].
  destruct (PyStr.isspace x); [auto | simpl; tauto].
Qed.

Lemma lstrip_head (s t : str) (c : N) :
  PyStr.lstrip s = c :: t -> PyStr.isspace c = false.
Proof.
  induction s as [|x s IH]; simpl; [discriminate|].
  destruct (PyStr.isspace x) eqn:E; [exact IH|].
  intros H. injection H as <- _. exact E.
Qed.

Lemma lstrip_app_last (u : str) (c : N) :
  PyStr.isspace c = false -> PyStr.lstrip (u ++ [c]) = PyStr.lstrip u ++ [c].
Proof.
  intros Hc. induction u as [|x u IH]; simpl; [now rewrite Hc|].
  destruct (PyStr.isspace x); [exact IH | reflexivity].
Qed.

Lemma rstrip_cons (c : N) (t : str) :
  PyStr.isspace c = false -> PyStr.rstrip (c :: t) = c :: PyStr.rstrip t.
Proof.
  intros Hc. unfold PyStr.rstrip. simpl.
  rewrite lstrip_app_last by exact Hc. rewrite rev_app_distr. reflexivity.
Qed.

Lemma rstrip_in (s : str) (c : N) : In c (PyStr.rstrip s) -> In c s.
Proof.
  unfold PyStr.rstrip. intros H. apply in_rev in H.
  apply lstrip_in in H. now apply in_rev.
Qed.

Lemma strip_in (s : str) (c : N) : In c (PyStr.strip s) -> In c s.
Proof. unfold PyStr.strip. intros H. now apply lstrip_in, rstrip_in. Qed.

(** A stripped string that is not empty begins and ends with a
    character that is not white space. *)
Lemma strip_ends (s : str) :
  PyStr.strip s <> [] ->
  exists c t d u, PyStr.strip s = c :: t /\ PyStr.isspace c = false
                  /\ rev (PyStr.strip s) = d :: u /\ PyStr.isspace d = false.
Proof.
  unfold PyStr.strip. intros Hne.
  destruct (PyStr.lstrip s) as [|c t] eqn:E; [now elim Hne|].
  pose proof (lstrip_head _ E) as Hc.
  rewrite rstrip_cons in * by exact Hc.
  exists c, (PyStr.rstrip t).
  destruct (rev (c :: PyStr.rstrip t)) as [|d u] eqn:R.
  - apply (f_equal (@rev N)) in R. rewrite rev_involutive in R. discriminate.
  - exists d, u. repeat split; try assumption.
    rewrite <- (@rstrip_cons c t Hc) in R. unfold PyStr.rstrip in R.
    rewrite rev_involutive in R. eapply lstrip_head; eassumption.
Qed.

Lemma lstrip_prefix (s : str) :
  exists pre, s = pre ++ PyStr.lstrip s /\ all_space pre.
Proof.
  induction s as [|c s [pre [E F]]]; simpl.
  - exists []. split; [reflexivity | constructor].
  - destruct (PyStr.isspace c) eqn:Hc.
    + exists (c :: pre). split; [simpl; now rewrite <- E|].
      constructor; assumption.
    + exists []. split; [reflexivity | constructor].
Qed.

Lemma rstrip_suffix (s : str) :
  exists post, s = PyStr.rstrip s ++ post /\ all_space post.
Proof.
  unfold PyStr.rstrip.
  destruct (lstrip_prefix (rev s)) as [pre [E F]].
  exists (rev pre). split.
  - rewrite <- rev_app_distr, <- E. symmetry. apply rev_involutive.
  - unfold all_space in *. apply Forall_forall. intros c Hc.
    apply in_rev in Hc. rewrite Forall_forall in F. now apply F.
Qed.

(** [strip] cuts white space off both ends, and all of it. *)
Lemma strip_trimmed (p : str) : trimmed p (PyStr.strip p).
Proof.
  split.
  - destruct (lstrip_prefix p) as [pre [E F]].
    destruct (rstrip_suffix (PyStr.lstrip p)) as [post [E' F']].
    exists pre, post. unfold PyStr.strip.
    split; [|split; assumption].
    rewrite <- E'. exact E.
  - destruct (PyStr.strip p) as [|c t] eqn:E; [now left|].
    right. rewrite <- E. apply strip_ends. rewrite E. discriminate.
Qed.

(** *** Series *)

Lemma dropna_some (A : Type) (l : list A) : dropna (map Some l) = l.
Proof. induction l; simpl; congruence. Qed.

Lemma Zsum_app (l1 l2 : list Z) : Zsum (l1 ++ l2) = Zsum l1 + Zsum l2.
Proof. induction l1; simpl; lia. Qed.

Lemma sum_some (A : Type) (f : A -> Z) (l : list A) :
  sum (map (fun r => Some (f r)) l) = Zsum (map f l).
Proof.
  unfold sum. rewrite <- (map_map f Some). now rewrite dropna_some.
Qed.

Lemma count_some (A B : Type) (f : A -> B) (l : list A) :
  count (map (fun r => Some (f r)) l) = length l.
Proof.
  unfold count. rewrite <- (map_map f Some), dropna_some. apply length_map.
Qed.

(** *** Group keys *)

Section GroupKeys.
Variables A K : Type.
Variable cmp : K -> K -> comparison.
Variable key : A -> option K.
Hypothesis cmp_refl : forall k, cmp k k = Eq.

Lemma in_insert_key (k k' : K) (l : list K) :
  In k (insert_key cmp k' l) -> k = k' \/ In k l.
Proof.
  induction l as [|x l IH]; simpl.
  - intros [<-|[]]; auto.
  - destruct (cmp k' x); simpl; intros H.
    + auto.
    + destruct H as [<-|H]; auto.
    + destruct H as [<-|H]; auto. destruct (IH H); auto.
Qed.

Lemma group_key_has_row (k : K) (l : list A) :
  In k (group_keys cmp key l) -> exists r, In r l /\ key r = Some k.
Proof.
  induction l as [|r l IH]; simpl; [intros []|].
  destruct (key r) as [k'|] eqn:E.
  - intros H. apply in_insert_key in H. destruct H as [->|H].
    + exists r; auto.
    + destruct (IH H) as [r' [? ?]]. exists r'; auto.
  - intros H. destruct (IH H) as [r' [? ?]]. exists r'; auto.
Qed.

(** No group is empty. *)
Lemma group_nonempty (k : K) (l : list A) :
  In k (group_keys cmp key l) -> get_group cmp key k l <> [].
Proof.
  intros H. destruct (group_key_has_row _ _ H) as [r [Hr Hk]].
  assert (Hin : In r (get_group cmp key k l)).
  { apply filter_In. split; [exact Hr|].
    unfold in_group. now rewrite Hk, cmp_refl. }
  intros E. now rewrite E in Hin.
Qed.
End GroupKeys.

(** *** Explosion of the genre cell *)

Lemma explode_row_labels (row : KobisRow) :
  explode_row row
  = map (fun g => mkGenreRow g (audiCnt0 row) (salesAmt0 row)) (labels row).
Proof.
  unfold explode_row, labels, parts, audiCnt0, salesAmt0.
  destruct (genres row) as [g|]; [|reflexivity].
  induction (PyStr.split PyStr.comma g) as [|p ps IH]; simpl; [reflexivity|].
  rewrite IH. now destruct (PyStr.truthy (PyStr.strip p)).
Qed.

Lemma in_group_genre (k : str) (r : GenreRow) :
  in_group PyStr.compare genre_key k r = true <-> genre r = k.
Proof.
  unfold in_group, genre_key.
  destruct (PyStr.compare k (genre r)) eqn:E.
  - apply compare_eq in E. now split.
  - split; [discriminate | intros <-; now rewrite compare_refl in E].
  - split; [discriminate | intros <-; now rewrite compare_refl in E].
Qed.

(** The rows of one record that fall in the group of [k]: as many as
    the record lists [k], each with the record's values. *)
Lemma group_of_record (k : str) (row : KobisRow) :
  get_group PyStr.compare genre_key k (explode_row row)
  = repeat (mkGenreRow k (audiCnt0 row) (salesAmt0 row))
           (count_occ str_eq_dec (labels row) k).
Proof.
  rewrite explode_row_labels. unfold get_group.
  induction (labels row) as [|g gs IH]; simpl; [reflexivity|].
  destruct (in_group PyStr.compare genre_key k
              (mkGenreRow g (audiCnt0 row) (salesAmt0 row))) eqn:E.
  - apply in_group_genre in E; simpl in E; subst g.
    destruct (str_eq_dec k k) as [_|N]; [|now elim N].
    simpl; now rewrite IH.
  - destruct (str_eq_dec g k) as [->|_]; [|exact IH].
    assert (H : in_group PyStr.compare genre_key k
                  (mkGenreRow k (audiCnt0 row) (salesAmt0 row)) = true)
      by now apply in_group_genre.
    congruence.
Qed.

Lemma get_group_app (A K : Type) (cmp : K -> K -> comparison)
      (key : A -> option K) (k : K) (l1 l2 : list A) :
  get_group cmp key k (l1 ++ l2) = get_group cmp key k l1 ++ get_group cmp key k l2.
Proof. apply filter_app. Qed.

Lemma Zsum_repeat (a : Z) (n : nat) : Zsum (repeat a n) = Z.of_nat n * a.
Proof. induction n; simpl Zsum; [lia | rewrite IHn; lia]. Qed.

Lemma map_repeat (A B : Type) (f : A -> B) (x : A) (n : nat) :
  map f (repeat x n) = repeat (f x) n.
Proof. induction n; simpl; congruence. Qed.

Lemma group_audience (k : str) (l : list KobisRow) :
  Zsum (map g_audiCnt (get_group PyStr.compare genre_key k (flat_map explode_row l)))
  = Zsum (map (fun row => occurrences k row * audiCnt0 row) l).
Proof.
  induction l as [|row l IH]; simpl; [reflexivity|].
  rewrite get_group_app, map_app, Zsum_app, IH, group_of_record.
  now rewrite map_repeat, Zsum_repeat.
Qed.

Lemma group_sales (k : str) (l : list KobisRow) :
  Zsum (map g_salesAmt (get_group PyStr.compare genre_key k (flat_map explode_row l)))
  = Zsum (map (fun row => occurrences k row * salesAmt0 row) l).
Proof.
  induction l as [|row l IH]; simpl; [reflexivity|].
  rewrite get_group_app, map_app, Zsum_app, IH, group_of_record.
  now rewrite map_repeat, Zsum_repeat.
Qed.

Lemma group_size (k : str) (l : list KobisRow) :
  Z.of_nat (length (get_group PyStr.compare genre_key k (flat_map explode_row l)))
  = Zsum (map (occurrences k) l).
Proof.
  induction l as [|row l IH]; simpl; [reflexivity|].
  rewrite get_group_app, length_app, Nat2Z.inj_add, IH, group_of_record.
  now rewrite repeat_length.
Qed.

(** Every row of the aggregate is the row of one group key. *)
Lemma genre_agg_inv (genre_df : list GenreRow) (s : GenreSummary) :
  In s (genre_agg genre_df) ->
  let grp := get_group PyStr.compare genre_key (gs_genre s) genre_df in
  In (gs_genre s) (group_keys PyStr.compare genre_key genre_df)
  /\ gs_sum s = Zsum (map g_audiCnt grp)
  /\ gs_count s = length grp
  /\ gs_sales s = Zsum (map g_salesAmt grp)
  /\ gs_mean s = option_map round0 (meanZ (map (fun r => Some (g_audiCnt r)) grp)).
Proof.
  unfold genre_agg, groupby. rewrite map_map. intros H.
  apply in_map_iff in H. destruct H as [k [<- Hk]]. simpl.
  rewrite !sum_some, count_some. auto.
Qed.

(** Every genre of the aggregate is a non-empty trimmed part of the
    genre cell of some record. *)
Lemma genre_agg_label_origin (kobis_df : KobisFrame) (s : GenreSummary) :
  In s (genre_agg (genre_data kobis_df)) ->
  gs_genre s <> []
  /\ exists row p, In row (rows kobis_df) /\ In p (parts row)
                   /\ gs_genre s = PyStr.strip p.
Proof.
  intros Hs. apply genre_agg_inv in Hs. destruct Hs as (Hkey & _).
  apply group_key_has_row in Hkey. destruct Hkey as [e [He Hk]].
  unfold genre_key in Hk. injection Hk as Hk.
  unfold genre_data in He. apply in_flat_map in He.
  destruct He as [row [Hrow He]].
  rewrite explode_row_labels in He. apply in_map_iff in He.
  destruct He as [g [<- Hg]]. simpl in Hk. subst g.
  unfold labels in Hg. apply filter_In in Hg. destruct Hg as [Hg Ht].
  apply in_map_iff in Hg. destruct Hg as [p [Ep Hp]].
  split.
  - intros E. rewrite E in Ht. discriminate.
  - exists row, p. repeat split; [exact Hrow | exact Hp | now symmetry].
Qed.

Lemma occurrences_zero (g : str) (row : KobisRow) :
  occurrences g row = 0 <-> ~ In g (labels row).
Proof.
  unfold occurrences. rewrite (count_occ_not_In str_eq_dec). lia.
Qed.

Lemma occurrences_once (g : str) (row : KobisRow) :
  NoDup (labels row) -> In g (labels row) -> occurrences g row = 1.
Proof.
  intros ND Hin. unfold occurrences.
  rewrite (NoDup_count_occ' str_eq_dec) in ND. now rewrite (ND _ Hin).
Qed.

(** C1, the claim fails: explosion emits a row per listing of a genre,
    not per genre.  The one record of the frame has the single genre
    Drama and an audience of 7; it passes the load, and the page reports
    Drama with sum 14 over 2 rows: the record's audience enters the
    aggregate of its one genre twice. *)
Lemma repeated_genre_counted_twice :
  distinct_labels twice_drama = [PyStr.lit "Drama"]
  /\ audiCnt twice_drama = Some 7
  /\ explode_row twice_drama
     = [ mkGenreRow (PyStr.lit "Drama") 7 0; mkGenreRow (PyStr.lit "Drama") 7 0 ]
  /\ load_and_process_data (Some (repeated, catalog))
     = Some (repeated, catalog_clean)
  /\ option_map (fun d => option_map ka_genre_summary (tab2 d))
                (main (Some (repeated, catalog)))
     = Some (Some (Some [twice_drama_summary])).
Proof. repeat split; vm_compute; reflexivity. Qed.

(** C1, as the code has it.  Explosion emits one row per listing: per
    part of the genre cell that is not empty once its leading and
    trailing white space is cut off, repeats included.  Each such row
    carries the record's audience and sales values in full (0 where the
    record has none); nothing is divided among the genres.  Hence the
    sum of a genre's group is the sum, over the records, of the record's
    whole audience value once per listing of the genre, likewise for
    sales, and the group's count is the number of listings: a record
    adds its whole audience once to a genre it lists once, and k times
    to a genre it lists k times.  Every genre of the summary is the
    trimmed, non-empty part of some record's cell.  On the two records
    (12,000,000, "Action,Drama") and (500,000, "Drama") the summary is
    Drama with sum 12,500,000 and count 2, Action with sum 12,000,000
    and count 1, and the same with white space around the labels. *)
Theorem explosion_full_weight (kobis_df : KobisFrame) (s : GenreSummary)
        (Hs : In s (genre_agg (genre_data kobis_df))) :
  (forall row,
      explode_row row
      = map (fun g => mkGenreRow g (audiCnt0 row) (salesAmt0 row)) (labels row))
  /\ (forall p, trimmed p (PyStr.strip p))
  /\ (forall sep cell, Forall (fun p => ~ In sep p) (PyStr.split sep cell))
  /\ (gs_genre s <> []
      /\ exists row p, In row (rows kobis_df) /\ In p (parts row)
                       /\ trimmed p (gs_genre s))
  /\ gs_sum s
     = Zsum (map (fun row => occurrences (gs_genre s) row * audiCnt0 row)
                 (rows kobis_df))
  /\ gs_sales s
     = Zsum (map (fun row => occurrences (gs_genre s) row * salesAmt0 row)
                 (rows kobis_df))
  /\ Z.of_nat (gs_count s) = Zsum (map (occurrences (gs_genre s)) (rows kobis_df))
  /\ (forall row g, occurrences g row = 0 <-> ~ In g (labels row))
  /\ (forall row g, NoDup (labels row) -> In g (labels row) ->
                    occurrences g row = 1)
  /\ genre_summary scenario = Some [drama_summary; action_summary]
  /\ genre_summary scenario_spaced = Some [drama_summary; action_summary].
Proof.
  pose proof (genre_agg_label_origin _ _ Hs) as (Hne & row & p & Hrow & Hp & Ep).
  apply genre_agg_inv in Hs. destruct Hs as (_ & Hsum & Hcnt & Hsales & _).
  split; [exact explode_row_labels|].
  split; [exact strip_trimmed|].
  split; [exact split_no_sep|].
  split.
  { split; [exact Hne|]. exists row, p.
    repeat split; [exact Hrow | exact Hp | | ];
      rewrite Ep; apply strip_trimmed. }
  split; [rewrite Hsum; apply group_audience|].
  split; [rewrite Hsales; apply group_sales|].
  split; [rewrite Hcnt; apply group_size|].
  split; [intros r g; apply occurrences_zero|].
  split; [intros r g; apply occurrences_once|].
  split; vm_compute; reflexivity.
Qed.

Lemma explosion_full_weight_witness :
  In drama_summary (genre_agg (genre_data scenario_spaced))
  /\ gs_sum drama_summary
     = Zsum (map (fun row => occurrences (gs_genre drama_summary) row * audiCnt0 row)
                 (rows scenario_spaced)).
Proof.
  assert (H : In drama_summary (genre_agg (genre_data scenario_spaced)))
    by (vm_compute; right; left; reflexivity).
  split; [exact H|].
  apply (explosion_full_weight scenario_spaced drama_summary H).
Defined.

Lemma count_occ_labels (row : KobisRow) (g : str) :
  count_occ str_eq_dec (labels row) g
  = if PyStr.truthy g
    then count_occ str_eq_dec (map PyStr.strip (parts row)) g
    else 0%nat.
Proof.
  unfold labels.
  induction (map PyStr.strip (parts row)) as [|p ps IH]; simpl.
  - now destruct (PyStr.truthy g).
  - destruct (PyStr.truthy p) eqn:Tp; simpl; rewrite IH.
    + destruct (str_eq_dec p g) as [->|_]; [now rewrite Tp | reflexivity].
    + destruct (str_eq_dec p g) as [->|_]; [now rewrite Tp | reflexivity].
Qed.

(** C3, the claim fails: the record with genre cell "Drama,Drama" yields
    two exploded rows for the label Drama. *)
Lemma explode_keeps_repeated_label :
  map genre (explode_row drama_drama) = [PyStr.lit "Drama"; PyStr.lit "Drama"]
  /\ ~ NoDup (map genre (explode_row drama_drama)).
Proof.
  split; [reflexivity|].
  intros H. inversion H as [|x l Hin _]; subst.
  apply Hin. left; reflexivity.
Qed.

(** C3, as the code has it.  Explosion splits the genre cell on commas,
    trims each part and drops the empty ones, and does not deduplicate:
    a record yields one exploded row per non-empty trimmed part, in
    order, so a label the cell lists k times yields k rows. *)
Theorem explode_one_row_per_part (row : KobisRow) (g : str) :
  map genre (explode_row row) = labels row
  /\ count_occ str_eq_dec (map genre (explode_row row)) g
     = (if PyStr.truthy g
        then count_occ str_eq_dec (map PyStr.strip (parts row)) g
        else 0%nat)
  /\ Forall (fun e => genre e <> []) (explode_row row).
Proof.
  assert (E : map genre (explode_row row) = labels row).
  { rewrite explode_row_labels, map_map. simpl. apply map_id. }
  split; [exact E|]. split.
  - rewrite E. apply count_occ_labels.
  - rewrite explode_row_labels. apply Forall_map. simpl.
    unfold labels. apply Forall_forall. intros x Hx.
    apply filter_In in Hx. destruct Hx as [_ Hx].
    destruct x; [discriminate | discriminate].
Qed.

(** *** Means *)

Lemma Qsum_inject (l : list Z) : (Qsum (map inject_Z l) == inject_Z (Zsum l))%Q.
Proof.
  induction l as [|a l IH]; simpl; [reflexivity|].
  rewrite IH, inject_Z_plus. reflexivity.
Qed.

Lemma inject_nat_pos (n : nat) : ~ (inject_Z (Z.of_nat (S n)) == 0)%Q.
Proof. unfold Qeq; simpl; lia. Qed.

(** What [mean] returns: nothing exactly when no value is present,
    otherwise the number whose product with the count of present values
    is their sum. *)
Lemma mean_spec (s : list (option Q)) :
  match mean s with
  | None => dropna s = []
  | Some m =>
      dropna s <> []
      /\ (m * inject_Z (Z.of_nat (length (dropna s))) == Qsum (dropna s))%Q
  end.
Proof.
  unfold mean. destruct (dropna s) as [|x v] eqn:E; [reflexivity|].
  split; [discriminate|].
  set (n := inject_Z (Z.of_nat (length (x :: v)))).
  assert (Hn : ~ (n == 0)%Q) by apply inject_nat_pos.
  field. exact Hn.
Qed.

(** On a column without missing values the mean is the sum over the
    number of rows. *)
Lemma meanZ_present (A : Type) (f : A -> Z) (l : list A) :
  l <> [] ->
  exists m, meanZ (map (fun r => Some (f r)) l) = Some m
            /\ (m * inject_Z (Z.of_nat (length l)) == inject_Z (Zsum (map f l)))%Q.
Proof.
  intros Hne. unfold meanZ.
  assert (E : map (option_map inject_Z) (map (fun r => Some (f r)) l)
              = map Some (map inject_Z (map f l)))
    by (rewrite !map_map; reflexivity).
  rewrite E.
  pose proof (mean_spec (map Some (map inject_Z (map f l)))) as M.
  rewrite dropna_some in M.
  destruct (mean (map Some (map inject_Z (map f l)))) as [m|].
  - exists m. split; [reflexivity|].
    destruct M as [_ M]. rewrite !length_map in M.
    rewrite M. apply Qsum_inject.
  - destruct l; [now elim Hne | discriminate].
Qed.

Lemma lang_agg_inv (tmdb_df : list TmdbRow) (l : LangSummary) :
  In l (lang_agg tmdb_df) ->
  let grp := get_group PyStr.compare original_language (ls_language l) tmdb_df in
  ls_count l = count (map title grp)
  /\ ls_rating l = mean (map vote_average grp)
  /\ ls_popularity l = mean (map popularity grp).
Proof.
  unfold lang_agg, groupby. rewrite map_map. intros H.
  apply in_map_iff in H. destruct H as [k [<- Hk]]. simpl. auto.
Qed.

(** The guard of the explosion loop, [row['audiCnt'] if
    pd.notna(row['audiCnt']) else 0]: on a frame that has not gone
    through the load, a missing audience count enters its group as a
    counted 0.  Two Drama records, one missing and one with 10, give
    mean 5 over count 2; a lone record without a count gives mean 0.
    [main] passes loaded frames only, where no count is missing. *)
Lemma missing_count_outside_load :
  genre_summary missing_and_ten
  = Some [mkGenreSummary (PyStr.lit "Drama") 10 (Some 5) 2 0]
  /\ genre_summary only_missing
     = Some [mkGenreSummary (PyStr.lit "Drama") 0 (Some 0) 1 0]
  /\ load_and_process_data (Some (missing_and_ten, catalog))
     = Some (only_ten, catalog_clean)
  /\ genre_summary only_ten = Some [ten_summary].
Proof. repeat split; vm_compute; reflexivity. Qed.

(** *** Ranking *)

Section RankingFacts.
Variable A : Type.
Variable key : A -> option Q.

Let ge (p1 p2 : Q * A) : Prop := (fst p2 <= fst p1)%Q.

Lemma insert_desc_perm (q : Q) (x : A) (l : list (Q * A)) :
  Permutation (insert_desc q x l) ((q, x) :: l).
Proof.
  induction l as [|[q' y] l IH]; simpl; [apply Permutation_refl|].
  destruct (Qle_bool q' q); [apply Permutation_refl|].
  eapply perm_trans; [apply perm_skip, IH | apply perm_swap].
Qed.

Lemma sort_desc_perm (l : list (Q * A)) : Permutation (sort_desc l) l.
Proof.
  induction l as [|[q x] l IH]; simpl; [constructor|].
  eapply perm_trans; [apply insert_desc_perm | now apply perm_skip].
Qed.

Lemma insert_desc_sorted (q : Q) (x : A) (l : list (Q * A)) :
  StronglySorted ge l -> StronglySorted ge (insert_desc q x l).
Proof.
  induction l as [|[q' y] l IH]; simpl; intros H.
  - repeat constructor.
  - inversion H as [|? ? Hl Hall]; subst.
    destruct (Qle_bool q' q) eqn:E.
    + apply Qle_bool_iff in E.
      constructor; [exact H|].
      constructor; [exact E|].
      eapply Forall_impl; [|exact Hall].
      intros [q2 z]; unfold ge; simpl. intros H2.
      eapply Qle_trans; eassumption.
    + assert (Hlt : (q < q')%Q).
      { apply Qnot_le_lt. intros C. apply Qle_bool_iff in C. congruence. }
      constructor; [now apply IH|].
      eapply Permutation_Forall;
        [apply Permutation_sym, insert_desc_perm|].
      constructor; [|exact Hall].
      unfold ge; simpl. now apply Qlt_le_weak.
Qed.

Lemma sort_desc_sorted (l : list (Q * A)) : StronglySorted ge (sort_desc l).
Proof.
  induction l as [|[q x] l IH]; simpl; [constructor|].
  now apply insert_desc_sorted.
Qed.

(** Stability: insertion puts the new row in front of the rows of
    equal value. *)
Lemma insert_desc_stable (v q : Q) (x : A) (l : list (Q * A)) :
  filter (fun p => Qeq_bool (fst p) v) (insert_desc q x l)
  = filter (fun p => Qeq_bool (fst p) v) ((q, x) :: l).
Proof.
  induction l as [|[q' y] l IH]; [reflexivity|].
  simpl insert_desc. destruct (Qle_bool q' q) eqn:E; [reflexivity|].
  assert (Hlt : (q < q')%Q).
  { apply Qnot_le_lt. intros C. apply Qle_bool_iff in C. congruence. }
  simpl in *. rewrite IH.
  destruct (Qeq_bool q v) eqn:Eq; [|reflexivity].
  destruct (Qeq_bool q' v) eqn:Eq'; [|reflexivity].
  apply Qeq_bool_iff in Eq, Eq'.
  rewrite Eq, Eq' in Hlt. now apply Qlt_irrefl in Hlt.
Qed.

Lemma sort_desc_stable (v : Q) (l : list (Q * A)) :
  filter (fun p => Qeq_bool (fst p) v) (sort_desc l)
  = filter (fun p => Qeq_bool (fst p) v) l.
Proof.
  induction l as [|[q x] l IH]; [reflexivity|].
  simpl sort_desc. rewrite insert_desc_stable. simpl. now rewrite IH.
Qed.

(** The ranked pairs carry each row with its own value. *)
Lemma dropped_keys (l : list A) :
  Forall (fun p => key (snd p) = Some (fst p)) (dropped key l).
Proof.
  induction l as [|r l IH]; simpl; [constructor|].
  destruct (key r) eqn:E; simpl; [constructor|]; auto.
Qed.

Lemma dropped_rows (l : list A) :
  map snd (dropped key l) = filter (valid key) l.
Proof.
  induction l as [|r l IH]; simpl; [reflexivity|].
  unfold valid at 1. destruct (key r); simpl; congruence.
Qed.

Lemma sorted_keys (l : list A) :
  Forall (fun p => key (snd p) = Some (fst p)) (sort_desc (dropped key l)).
Proof.
  eapply Permutation_Forall;
    [apply Permutation_sym, sort_desc_perm | apply dropped_keys].
Qed.

Lemma ranked_perm (l : list A) :
  Permutation (ranked key l) (filter (valid key) l).
Proof.
  unfold ranked. rewrite <- dropped_rows.
  apply Permutation_map, sort_desc_perm.
Qed.

Lemma filter_keyed (v : Q) (ps : list (Q * A)) :
  Forall (fun p => key (snd p) = Some (fst p)) ps ->
  filter (has_value key v) (map snd ps)
  = map snd (filter (fun p => Qeq_bool (fst p) v) ps).
Proof.
  induction 1 as [|[q x] ps Hk _ IH]; [reflexivity|].
  simpl in *. unfold has_value at 1. rewrite Hk.
  destruct (Qeq_bool q v); simpl; now rewrite IH.
Qed.

Lemma has_value_valid (v : Q) (l : list A) :
  filter (has_value key v) (filter (valid key) l) = filter (has_value key v) l.
Proof.
  induction l as [|r l IH]; [reflexivity|].
  simpl. unfold valid at 1, has_value at 2.
  destruct (key r) eqn:E; simpl; [|exact IH].
  unfold has_value at 1. rewrite E.
  destruct (Qeq_bool q v); now rewrite IH.
Qed.

Lemma ranked_stable (v : Q) (l : list A) :
  filter (has_value key v) (ranked key l) = filter (has_value key v) l.
Proof.
  unfold ranked. rewrite filter_keyed by apply sorted_keys.
  rewrite sort_desc_stable, <- filter_keyed by apply dropped_keys.
  rewrite dropped_rows. apply has_value_valid.
Qed.

Lemma sorted_rows (ps : list (Q * A)) :
  Forall (fun p => key (snd p) = Some (fst p)) ps ->
  StronglySorted ge ps ->
  StronglySorted (ranks_before key) (map snd ps).
Proof.
  induction 1 as [|[q x] ps Hk Hks IH]; intros S; [constructor|].
  inversion S as [|? ? Sps Hall]; subst. simpl.
  constructor; [now apply IH|].
  apply Forall_map. rewrite Forall_forall in *.
  intros [q' y] Hin. specialize (Hall _ Hin). specialize (Hks _ Hin).
  unfold ranks_before, ge in *. simpl in *. now rewrite Hk, Hks.
Qed.

Lemma ranked_sorted (l : list A) :
  StronglySorted (ranks_before key) (ranked key l).
Proof.
  apply sorted_rows; [apply sorted_keys | apply sort_desc_sorted].
Qed.

Lemma ranked_length (l : list A) :
  length (ranked key l) = count (map key l).
Proof.
  rewrite (Permutation_length (ranked_perm l)).
  unfold count. induction l as [|r l IH]; [reflexivity|].
  simpl. unfold valid at 1. destruct (key r); simpl; now rewrite IH.
Qed.

Lemma split_length (l : list A) :
  (length (ranked key l) + length (nan_rows key l) = length l)%nat.
Proof.
  rewrite (Permutation_length (ranked_perm l)). unfold nan_rows.
  induction l as [|r l IH]; [reflexivity|].
  simpl. unfold valid at 1. destruct (notna (key r)); simpl; lia.
Qed.
End RankingFacts.

Lemma in_firstn (A : Type) (n : nat) (l : list A) (x : A) :
  In x (firstn n l) -> In x l.
Proof.
  revert n; induction l as [|y l IH]; intros [|n]; simpl; try tauto.
  intros [H|H]; [auto | right; eapply IH; eassumption].
Qed.

Lemma sorted_firstn (A : Type) (R : A -> A -> Prop) (n : nat) (l : list A) :
  StronglySorted R l -> StronglySorted R (firstn n l).
Proof.
  revert n; induction l as [|x l IH]; intros [|n] S; simpl; try constructor.
  - inversion S; subst; auto.
  - inversion S as [|? ? _ Hall]; subst.
    rewrite Forall_forall in *. intros y Hy.
    apply Hall. eapply in_firstn; eassumption.
Qed.

Lemma filter_firstn (A : Type) (f : A -> bool) (n : nat) (l : list A) :
  exists k, filter f (firstn n l) = firstn k (filter f l).
Proof.
  revert n; induction l as [|x l IH]; intros [|n]; simpl.
  - now exists 0%nat.
  - now exists 0%nat.
  - now exists 0%nat.
  - destruct (IH n) as [k Ek]. destruct (f x).
    + exists (S k). simpl. now rewrite Ek.
    + now exists k.
Qed.

Lemma numbered_rows (A : Type) (l : list A) : map snd (numbered l) = l.
Proof.
  unfold numbered. generalize 1%nat.
  induction l as [|x l IH]; intros a; simpl; [reflexivity|].
  now rewrite IH.
Qed.

Lemma nlargest_split (A : Type) (key : A -> option Q) (n : nat) (l : list A) :
  nlargest key n l
  = firstn n (ranked key l) ++ firstn (n - count (map key l)) (nan_rows key l).
Proof. unfold nlargest. now rewrite firstn_app, ranked_length. Qed.

(** C4, the claim fails: of two rows, one with a missing cumulative
    audience, the Top 10 holds both, where one row has a valid value. *)
Lemma top_n_keeps_missing_rows :
  length (top_movies one_valid_one_missing) = 2%nat
  /\ Nat.min 10 (count (map audiAcc (rows one_valid_one_missing))) = 1%nat
  /\ map snd (top_movies one_valid_one_missing) = rows one_valid_one_missing.
Proof. repeat split; vm_compute; reflexivity. Qed.

(** C4, as the code has it.  Top-N returns min(n, number of rows)
    entries.  First come the rows with a valid value, at most n of
    them, in descending order of the value; rows of equal value keep
    their input order; the ranked rows are a rearrangement of the valid
    rows.  When fewer than n rows have a valid value, the rows with a
    missing value follow in input order.  The result is a function of
    the input sequence.  The Top 10 of the domestic frame is this list
    for the cumulative audience. *)
Theorem nlargest_ranking (A : Type) (key : A -> option Q) (n : nat)
        (l : list A) (v : Q) :
  let top := firstn n (ranked key l) in
  nlargest key n l = top ++ firstn (n - count (map key l)) (nan_rows key l)
  /\ length (nlargest key n l) = Nat.min n (length l)
  /\ length top = Nat.min n (count (map key l))
  /\ StronglySorted (ranks_before key) top
  /\ Permutation (ranked key l) (filter (valid key) l)
  /\ (exists k, filter (has_value key v) top
                = firstn k (filter (has_value key v) l))
  /\ (forall kobis_df : KobisFrame,
         map snd (top_movies kobis_df) = nlargest audiAccQ 10 (rows kobis_df)).
Proof.
  intros top. unfold top.
  split; [|split; [|split; [|split; [|split; [|split]]]]].
  - apply nlargest_split.
  - unfold nlargest.
    rewrite length_firstn, length_app, split_length. reflexivity.
  - rewrite length_firstn, ranked_length. reflexivity.
  - apply sorted_firstn, ranked_sorted.
  - apply ranked_perm.
  - destruct (filter_firstn (has_value key v) n (ranked key l)) as [k Ek].
    exists k. rewrite Ek, ranked_stable. reflexivity.
  - intros kobis_df. apply numbered_rows.
Qed.

(** *** Buckets *)

Lemma bucket_predicates (r : KobisRow) :
  cell_ltZ (audiAcc r) 100000 = in_bucket 0 r
  /\ cell_geZ (audiAcc r) 100000 && cell_ltZ (audiAcc r) 1000000 = in_bucket 1 r
  /\ cell_geZ (audiAcc r) 1000000 && cell_ltZ (audiAcc r) 5000000 = in_bucket 2 r
  /\ cell_geZ (audiAcc r) 5000000 && cell_ltZ (audiAcc r) 10000000 = in_bucket 3 r
  /\ cell_geZ (audiAcc r) 10000000 = in_bucket 4 r.
Proof.
  unfold in_bucket, bucket_of, cell_ltZ, cell_geZ.
  destruct (audiAcc r) as [x|]; [|repeat split; reflexivity].
  destruct (Z.ltb_spec x 100000), (Z.ltb_spec x 1000000),
    (Z.ltb_spec x 5000000), (Z.ltb_spec x 10000000),
    (Z.leb_spec 100000 x), (Z.leb_spec 1000000 x),
    (Z.leb_spec 5000000 x), (Z.leb_spec 10000000 x);
    try lia; repeat split; reflexivity.
Qed.

Lemma bucket_range (x : Z) : (bucket_of x < 5)%nat.
Proof.
  unfold bucket_of.
  destruct (x <? 100000), (x <? 1000000), (x <? 5000000), (x <? 10000000); lia.
Qed.

Lemma filter_cons_length (A : Type) (f : A -> bool) (x : A) (l : list A) :
  length (filter f (x :: l)) = (Nat.b2n (f x) + length (filter f l))%nat.
Proof. simpl. now destruct (f x). Qed.

(** A row is counted once: in its bucket, or as missing. *)
Lemma one_bucket (r : KobisRow) :
  (Nat.b2n (in_bucket 0 r) + Nat.b2n (in_bucket 1 r) + Nat.b2n (in_bucket 2 r)
   + Nat.b2n (in_bucket 3 r) + Nat.b2n (in_bucket 4 r)
   + Nat.b2n (negb (notna (audiAcc r))) = 1)%nat.
Proof.
  unfold in_bucket. destruct (audiAcc r) as [x|]; [|reflexivity].
  pose proof (bucket_range x) as B.
  destruct (bucket_of x) as [|[|[|[|[|b]]]]]; simpl; lia.
Qed.

Lemma bucket_counts (l : list KobisRow) :
  (list_sum (map (fun i => length (filter (in_bucket i) l)) [0; 1; 2; 3; 4])
   + length (filter (fun r => negb (notna (audiAcc r))) l)
   = length l)%nat.
Proof.
  induction l as [|r l IH]; [reflexivity|].
  unfold list_sum in *. cbn [map fold_right] in *.
  rewrite !filter_cons_length.
  pose proof (one_bucket r). cbn [length]. lia.
Qed.

Lemma audience_counts_buckets (kobis_df : KobisFrame) :
  audience_counts kobis_df
  = map (fun i => length (filter (in_bucket i) (rows kobis_df))) [0; 1; 2; 3; 4]%nat.
Proof.
  assert (F : forall (f g : KobisRow -> bool) (l : list KobisRow),
             (forall r, f r = g r) ->
             length (filter f l) = length (filter g l))
    by (intros f g l H; f_equal; now apply filter_ext).
  unfold audience_counts. cbn [map].
  repeat (f_equal; [apply F; intros r; apply (bucket_predicates r)|]).
  f_equal. apply F; intros r; apply (bucket_predicates r).
Qed.

Lemma bucket_total (kobis_df : KobisFrame) :
  (list_sum (audience_counts kobis_df) + excluded kobis_df
   = length (rows kobis_df))%nat.
Proof. rewrite audience_counts_buckets. apply bucket_counts. Qed.

(** C5, the claim fails: the bucket counts carry no exclusion count.  A
    frame of one valid row and one row with a missing value gives the
    same five counts as the frame of the valid row alone, so nothing
    read from the counts makes them add up to the number of rows. *)
Lemma no_exclusion_count :
  audience_counts one_valid_one_missing = audience_counts one_valid
  /\ list_sum (audience_counts one_valid_one_missing) = 1%nat
  /\ length (rows one_valid_one_missing) = 2%nat
  /\ ~ (exists query : list nat -> nat,
          forall kobis_df : KobisFrame,
            (list_sum (audience_counts kobis_df) + query (audience_counts kobis_df)
             = length (rows kobis_df))%nat).
Proof.
  assert (E : audience_counts one_valid_one_missing = audience_counts one_valid)
    by reflexivity.
  repeat split; try reflexivity.
  intros [query H].
  pose proof (H one_valid_one_missing) as H1. pose proof (H one_valid) as H0.
  rewrite E in H1. simpl in H0, H1. lia.
Qed.

(** C5, as the code has it.  The five counts are the numbers of rows
    whose cumulative audience is present and lies in the bucket
    x < 100,000, 100,000 <= x < 1,000,000, 1,000,000 <= x < 5,000,000,
    5,000,000 <= x < 10,000,000 and 10,000,000 <= x: every valid value
    has exactly one bucket, the first open below and the last open
    above.  Rows with a missing value are in no bucket and the code
    produces no count of them; the counts add up to the number of rows
    less the rows with a missing value. *)
Theorem bucket_coverage (kobis_df : KobisFrame) :
  audience_counts kobis_df
  = map (fun i => length (filter (in_bucket i) (rows kobis_df))) [0; 1; 2; 3; 4]%nat
  /\ (list_sum (audience_counts kobis_df) + excluded kobis_df
      = length (rows kobis_df))%nat
  /\ (forall x : Z, bucket_of x < 5)%nat.
Proof.
  split; [apply audience_counts_buckets|].
  split; [apply bucket_total | exact bucket_range].
Qed.

(** *** Cleaning *)

Lemma filter_filter_andb (A : Type) (f g : A -> bool) (l : list A) :
  filter g (filter f l) = filter (fun x => f x && g x) l.
Proof.
  induction l as [|x l IH]; [reflexivity|].
  simpl. destruct (f x); simpl; [destruct (g x)|]; now rewrite IH.
Qed.

(** What a successful load returns. *)
Lemma load_inv (kobis_df k : KobisFrame) (tmdb_df t : TmdbFrame) :
  load_and_process_data (Some (kobis_df, tmdb_df)) = Some (k, t) ->
  k = select kobis_kept kobis_df /\ t = select tmdb_kept tmdb_df.
Proof.
  unfold load_and_process_data.
  destruct (forallb _ kobis_load_columns && forallb _ tmdb_load_columns);
    [|discriminate].
  intros H. injection H as <- <-.
  unfold select; simpl. rewrite !filter_filter_andb. split; reflexivity.
Qed.

Lemma kobis_kept_iff (r : KobisRow) :
  kobis_kept r = true
  <-> exists y a s, year r = Some y /\ y <= 2024
                    /\ audiCnt r = Some a /\ 0 <= a
                    /\ salesAmt r = Some s /\ 0 <= s.
Proof.
  unfold kobis_kept, cell_leZ, cell_geZ, current_year.
  rewrite !andb_true_iff. split.
  - intros [Hy [Ha Hs]].
    destruct (year r) as [y|], (audiCnt r) as [a|], (salesAmt r) as [s|];
      try discriminate.
    exists y, a, s. repeat split; auto; now apply Z.leb_le.
  - intros (y & a & s & -> & Hy & -> & Ha & -> & Hs).
    repeat split; now apply Z.leb_le.
Qed.

Lemma tmdb_kept_iff (r : TmdbRow) :
  tmdb_kept r = true
  <-> exists y v, t_year r = Some y /\ y <= 2024
                  /\ vote_average r = Some v /\ (0 <= v)%Q /\ (v <= 10)%Q.
Proof.
  unfold tmdb_kept, cell_leZ, cell_geQ, cell_leQ, current_year.
  rewrite !andb_true_iff. split.
  - intros [Hy [H0 H10]].
    destruct (t_year r) as [y|], (vote_average r) as [v|]; try discriminate.
    exists y, v. repeat split; auto;
      [now apply Z.leb_le | now apply Qle_bool_iff | now apply Qle_bool_iff].
  - intros (y & v & -> & Hy & -> & H0 & H10).
    repeat split; [now apply Z.leb_le | |]; now apply Qle_bool_iff.
Qed.

(** C6, the claim fails: a record with a negative audience count is not
    kept with that metric marked absent; the load removes the record
    from the dataset.  The same holds for a catalog entry rated 11. *)
Lemma load_drops_whole_record :
  load_and_process_data
    (Some (mkFrame kobis_columns [negative_count],
           mkFrame tmdb_columns [overrated]))
  = Some (mkFrame kobis_columns [], mkFrame tmdb_columns []).
Proof. reflexivity. Qed.

(** C6, as the code has it.  A successful load keeps exactly the
    domestic records whose year is at most 2024 and whose audience count
    and sales amount are present and non-negative, and exactly the
    catalog entries whose year is at most 2024 and whose rating is
    present and within [0,10]; every other record is removed from the
    dataset as a whole.  The records kept are unchanged and in order,
    and the columns are those of the input. *)
Theorem load_removes_records (kobis_df k : KobisFrame) (tmdb_df t : TmdbFrame)
        (H : load_and_process_data (Some (kobis_df, tmdb_df)) = Some (k, t)) :
  rows k = filter kobis_kept (rows kobis_df)
  /\ rows t = filter tmdb_kept (rows tmdb_df)
  /\ columns k = columns kobis_df
  /\ columns t = columns tmdb_df
  /\ (forall r, In r (rows k)
                <-> In r (rows kobis_df)
                    /\ exists y a s, year r = Some y /\ y <= 2024
                                     /\ audiCnt r = Some a /\ 0 <= a
                                     /\ salesAmt r = Some s /\ 0 <= s)
  /\ (forall r, In r (rows t)
                <-> In r (rows tmdb_df)
                    /\ exists y v, t_year r = Some y /\ y <= 2024
                                   /\ vote_average r = Some v
                                   /\ (0 <= v)%Q /\ (v <= 10)%Q).
Proof.
  apply load_inv in H. destruct H as [-> ->]. simpl.
  repeat (split; [reflexivity|]).
  split; intros r; rewrite filter_In.
  - now rewrite kobis_kept_iff.
  - now rewrite tmdb_kept_iff.
Qed.

Lemma load_removes_records_witness :
  load_and_process_data (Some (scenario, catalog)) = Some (scenario, catalog_clean)
  /\ rows catalog_clean = filter tmdb_kept (rows catalog).
Proof.
  assert (H : load_and_process_data (Some (scenario, catalog))
              = Some (scenario, catalog_clean)) by reflexivity.
  split; [exact H|].
  apply (@load_removes_records scenario scenario catalog catalog_clean H).
Defined.

(** *** Rates *)

(** The rate of a part of a whole: no fault, a percentage. *)
Lemma rate_percentage (count total : Z) :
  0 <= count <= total ->
  exists q, rate count total = Some q
            /\ (0 <= q)%Q /\ (q <= 100)%Q
            /\ (q * inject_Z total == 100 * inject_Z count)%Q.
Proof.
  intros [H0 H1]. unfold rate, truediv.
  destruct (Z.ltb_spec 0 total) as [Hpos|Hz].
  - destruct (Z.eqb_spec total 0) as [->|_]; [lia|]. simpl.
    eexists. split; [reflexivity|].
    assert (HT : (inject_Z 0 < inject_Z total)%Q)
      by (rewrite <- Zlt_Qlt; exact Hpos).
    assert (HC : (inject_Z 0 <= inject_Z count)%Q)
      by (rewrite <- Zle_Qle; exact H0).
    change (inject_Z 0) with 0%Q in HT, HC.
    assert (HCT : (inject_Z count <= inject_Z total)%Q)
      by (rewrite <- Zle_Qle; exact H1).
    assert (Hlo : (0 <= inject_Z count / inject_Z total)%Q).
    { apply Qle_shift_div_l; [exact HT|]. now rewrite Qmult_0_l. }
    assert (Hhi : (inject_Z count / inject_Z total <= 1)%Q).
    { apply Qle_shift_div_r; [exact HT|]. now rewrite Qmult_1_l. }
    set (x := (inject_Z count / inject_Z total)%Q) in *.
    repeat split; [lra | lra |].
    unfold x. field. intros E. rewrite E in HT. now apply Qlt_irrefl in HT.
  - assert (total = 0) by lia. assert (count = 0) by lia. subst.
    exists 0%Q. repeat split; try reflexivity; discriminate.
Qed.

Lemma filter_le (A : Type) (f g : A -> bool) (l : list A) :
  (forall x, f x = true -> g x = true) ->
  (length (filter f l) <= length (filter g l))%nat.
Proof.
  intros H. induction l as [|x l IH]; [reflexivity|].
  simpl. destruct (f x) eqn:E.
  - rewrite (H x E). simpl. lia.
  - destruct (g x); simpl; lia.
Qed.

Lemma filter_le_all (A : Type) (f : A -> bool) (l : list A) :
  (length (filter f l) <= length l)%nat.
Proof.
  induction l as [|x l IH]; [reflexivity|].
  simpl. destruct (f x); simpl; lia.
Qed.

Lemma blockbuster_part (kobis_df : KobisFrame) :
  0 <= blockbuster_count kobis_df <= total_movies kobis_df.
Proof.
  unfold blockbuster_count, total_movies, len.
  pose proof (filter_le_all (fun r => cell_geZ (audiAcc r) 10000000)
                            (rows kobis_df)). lia.
Qed.

Lemma filter_map_length (A B : Type) (f : B -> bool) (g : A -> B) (l : list A) :
  length (filter f (map g l)) = length (filter (fun x => f (g x)) l).
Proof.
  induction l as [|x l IH]; [reflexivity|].
  simpl. destruct (f (g x)); simpl; now rewrite IH.
Qed.

Lemma summer_part (kobis_df : KobisFrame) :
  0 <= summer_movies (assign_month kobis_df)
    <= total_with_date (assign_month kobis_df).
Proof.
  unfold summer_movies, total_with_date, len, assign_month. simpl.
  rewrite !filter_map_length. simpl.
  pose proof (filter_le
                (fun r => cell_isin (option_map d_month (openDt r)) [6; 7; 8])
                (fun r => notna (openDt r)) (rows kobis_df)) as H.
  assert (Hle : forall r : KobisRow,
             cell_isin (option_map d_month (openDt r)) [6; 7; 8] = true ->
             notna (openDt r) = true).
  { intros r. destruct (openDt r); [reflexivity | discriminate]. }
  specialize (H Hle). lia.
Qed.

Lemma quality_part (tmdb_df : TmdbFrame) :
  0 <= high_rated tmdb_df <= len (rows tmdb_df).
Proof.
  unfold high_rated, len.
  pose proof (filter_le_all (fun r => cell_geQ (vote_average r) 8)
                            (rows tmdb_df)). lia.
Qed.

(** C7.  With a denominator of zero the rate expression returns the
    sentinel 0 and does not fault, whatever the numerator; in particular
    for numerator 0.  The three rates of a frame without rows are 0, and
    the expression faults on no pair of counts. *)
Theorem rate_zero_denominator (count : Z) (cols : list string) :
  rate count 0 = Some 0%Q
  /\ rate 0 0 = Some 0%Q
  /\ blockbuster_rate (mkFrame cols []) = Some 0%Q
  /\ summer_rate (mkFrame cols []) = Some 0%Q
  /\ quality_rate (mkFrame cols []) = Some 0%Q
  /\ (forall total : Z, rate count total <> None).
Proof.
  repeat (split; [reflexivity|]).
  intros total. unfold rate, truediv.
  destruct (Z.ltb_spec 0 total); [|discriminate].
  destruct (Z.eqb_spec total 0); [lia | discriminate].
Qed.

(** C8, the claim fails: the rate is scaled by 100 inside the
    computation.  For a frame whose only record reached ten million the
    blockbuster rate is 100, outside [0,1]. *)
Lemma rate_is_percent :
  blockbuster_rate all_blockbusters = Some 100%Q
  /\ ~ (100 <= 1)%Q.
Proof.
  split; [reflexivity|]. intros H. now apply Qle_bool_iff in H.
Qed.

(** C8, as the code has it.  Each rate (blockbuster, summer release,
    high rating) is computed without fault and is a percentage in
    [0,100]: the share of the counted rows in the total, times 100. *)
Theorem rates_are_percentages (kobis_df : KobisFrame) (tmdb_df : TmdbFrame) :
  (exists q, blockbuster_rate kobis_df = Some q
             /\ (0 <= q)%Q /\ (q <= 100)%Q
             /\ (q * inject_Z (total_movies kobis_df)
                 == 100 * inject_Z (blockbuster_count kobis_df))%Q)
  /\ (exists q, summer_rate (assign_month kobis_df) = Some q
                /\ (0 <= q)%Q /\ (q <= 100)%Q
                /\ (q * inject_Z (total_with_date (assign_month kobis_df))
                    == 100 * inject_Z (summer_movies (assign_month kobis_df)))%Q)
  /\ (exists q, quality_rate tmdb_df = Some q
                /\ (0 <= q)%Q /\ (q <= 100)%Q
                /\ (q * inject_Z (len (rows tmdb_df))
                    == 100 * inject_Z (high_rated tmdb_df))%Q).
Proof.
  split; [|split].
  - apply rate_percentage, blockbuster_part.
  - apply rate_percentage, summer_part.
  - apply rate_percentage, quality_part.
Qed.

(** *** The frame the analysis functions receive *)

Lemma has_open_dates_nonempty (kobis_df : KobisFrame) :
  has_open_dates kobis_df = true -> empty kobis_df = false.
Proof.
  unfold has_open_dates, empty.
  destruct (rows kobis_df); simpl; [|reflexivity].
  now rewrite andb_false_r.
Qed.

Lemma rate_total (count total : Z) : exists q, rate count total = Some q.
Proof.
  unfold rate, truediv.
  destruct (Z.ltb_spec 0 total); [|eauto].
  destruct (Z.eqb_spec total 0); [lia | simpl; eauto].
Qed.

Lemma assign_month_rows (kobis_df : KobisFrame) :
  map (set_month None) (rows (assign_month kobis_df))
  = map (set_month None) (rows kobis_df).
Proof.
  unfold assign_month. simpl. rewrite map_map. reflexivity.
Qed.

Lemma show_insights_frame (kobis_df : KobisFrame) (tmdb_df : TmdbFrame) :
  exists i,
    show_insights kobis_df tmdb_df
    = Some (i, if has_open_dates kobis_df then assign_month kobis_df
               else kobis_df).
Proof.
  unfold show_insights, blockbuster_rate, summer_rate, quality_rate.
  destruct (rate_total (high_rated tmdb_df) (len (rows tmdb_df))) as [q Eq].
  destruct (rate_total (blockbuster_count kobis_df) (total_movies kobis_df))
    as [b Eb].
  destruct (rate_total (summer_movies (assign_month kobis_df))
                       (total_with_date (assign_month kobis_df))) as [s Es].
  rewrite Eq, Eb.
  destruct (has_open_dates kobis_df) eqn:D.
  - rewrite (has_open_dates_nonempty _ D). simpl. rewrite Es. simpl.
    destruct (empty tmdb_df); simpl; eauto.
  - destruct (empty kobis_df), (empty tmdb_df); simpl; eauto.
Qed.

Lemma count_audiAccQ (l : list KobisRow) :
  count (map audiAccQ l) = count (map audiAcc l).
Proof.
  unfold count, audiAccQ. induction l as [|r l IH]; [reflexivity|].
  simpl. destruct (audiAcc r); simpl; now rewrite IH.
Qed.

Lemma count_zero_isna (A : Type) (s : list (option A)) :
  count s = 0%nat <-> isna_all s = true.
Proof.
  unfold count. induction s as [|[x|] s IH]; simpl.
  - tauto.
  - split; discriminate.
  - exact IH.
Qed.

(** [idxmax] finds a row exactly when some value is present. *)
Lemma idxmax_row_spec (l : list KobisRow) :
  match idxmax_row l with
  | Some _ => isna_all (map audiAcc l) = false
  | None => isna_all (map audiAcc l) = true
  end.
Proof.
  unfold idxmax_row.
  pose proof (ranked_length audiAccQ l) as L. rewrite count_audiAccQ in L.
  destruct (ranked audiAccQ l) as [|r rest]; simpl in *.
  - apply count_zero_isna. now symmetry.
  - destruct (isna_all (map audiAcc l)) eqn:E; [|reflexivity].
    apply count_zero_isna in E. lia.
Qed.

Lemma show_key_metrics_frame (kobis_df : KobisFrame) (tmdb_df : TmdbFrame) :
  option_map snd (show_key_metrics kobis_df tmdb_df)
  = if negb (empty kobis_df) && isna_all (map audiAcc (rows kobis_df))
    then None
    else Some (if has_open_dates kobis_df then assign_month kobis_df
               else kobis_df).
Proof.
  unfold show_key_metrics.
  destruct (empty kobis_df); simpl.
  - now destruct (has_open_dates kobis_df).
  - pose proof (idxmax_row_spec (rows kobis_df)) as I.
    destruct (idxmax_row (rows kobis_df)); rewrite I; simpl;
      [now destruct (has_open_dates kobis_df) | reflexivity].
Qed.

(** C9, the claim fails: the key-metric and the insight computation
    write the derived column ['month'] into the frame they receive.  A
    frame of one dated record has no such column before the call and has
    it, with the cell 7, after. *)
Lemma analysis_adds_month_column :
  option_map snd (show_key_metrics dated catalog) = Some (assign_month dated)
  /\ option_map snd (show_insights dated catalog) = Some (assign_month dated)
  /\ assign_month dated <> dated
  /\ has_column "month" dated = false
  /\ has_column "month" (assign_month dated) = true
  /\ map month (rows dated) = [None]
  /\ map month (rows (assign_month dated)) = [Some 7].
Proof.
  split; [reflexivity|]. split; [reflexivity|].
  split; [|repeat split; reflexivity].
  intros E. apply (f_equal (has_column "month")) in E. discriminate E.
Qed.

Lemma has_column_in (R : Type) (c : string) (df : DataFrame R) :
  has_column c df = true <-> In c (columns df).
Proof.
  unfold has_column. rewrite existsb_exists. split.
  - intros [x [Hx E]]. apply String.eqb_eq in E. now subst.
  - intros H. exists c. split; [exact H | apply String.eqb_refl].
Qed.

Lemma has_open_dates_iff (kobis_df : KobisFrame) :
  has_open_dates kobis_df = true <-> dates_present kobis_df.
Proof.
  unfold has_open_dates, dates_present.
  rewrite andb_true_iff, has_column_in, negb_true_iff.
  assert (E : isna_all (map openDt (rows kobis_df)) = false
              <-> exists r, In r (rows kobis_df) /\ openDt r <> None).
  { unfold isna_all. induction (rows kobis_df) as [|r l IH]; simpl.
    - split; [discriminate | intros [r [[] _]]].
    - rewrite andb_false_iff, IH. split.
      + intros [H|[r' [Hin Hr']]].
        * exists r. split; [now left|]. destruct (openDt r); [discriminate|].
          discriminate H.
        * exists r'. split; [now right | exact Hr'].
      + intros [r' [[<-|Hin] Hr']].
        * left. destruct (openDt r); [reflexivity | now elim Hr'].
        * right. eauto. }
  now rewrite E.
Qed.

Lemma assign_month_same (kobis_df : KobisFrame) :
  Forall2 same_but_month (rows (assign_month kobis_df)) (rows kobis_df).
Proof.
  unfold assign_month. cbn [rows].
  induction (rows kobis_df) as [|r l IH]; simpl; constructor; [|exact IH].
  unfold same_but_month. simpl. repeat split.
Qed.

Lemma same_but_month_refl (l : list KobisRow) : Forall2 same_but_month l l.
Proof.
  induction l; constructor; [|assumption].
  unfold same_but_month. repeat split.
Qed.

(** C9, as the code has it.  The key-metric and the insight computation
    leave the frame they receive exactly as it was when it has no column
    of opening dates or no record with a valid opening date.  Otherwise
    they assign it the column ['month'], the month of each opening date
    (missing where the date is): the frame has that column afterwards,
    added at the end of the columns when it was absent and overwritten,
    the columns being as before, when it was present; the number and
    order of the records and every other field of every record stay
    unchanged.  The insight computation never raises; the key-metric
    computation raises exactly when the frame has records and none has a
    cumulative audience. *)
Theorem analysis_frame_effect (kobis_df : KobisFrame) (tmdb_df : TmdbFrame) :
  let after := if has_open_dates kobis_df then assign_month kobis_df
               else kobis_df in
  option_map snd (show_key_metrics kobis_df tmdb_df)
  = (if negb (empty kobis_df) && isna_all (map audiAcc (rows kobis_df))
     then None else Some after)
  /\ (exists i, show_insights kobis_df tmdb_df = Some (i, after))
  /\ (~ dates_present kobis_df -> after = kobis_df)
  /\ (dates_present kobis_df ->
      In "month"%string (columns after)
      /\ (In "month"%string (columns kobis_df) ->
          columns after = columns kobis_df)
      /\ (~ In "month"%string (columns kobis_df) ->
          columns after = columns kobis_df ++ ["month"%string])
      /\ map month (rows after)
         = map (fun r => option_map d_month (openDt r)) (rows kobis_df))
  /\ Forall2 same_but_month (rows after) (rows kobis_df)
  /\ length (rows after) = length (rows kobis_df)
  /\ map (set_month None) (rows after) = map (set_month None) (rows kobis_df)
  /\ map month (rows (assign_month kobis_df))
     = map (fun r => option_map d_month (openDt r)) (rows kobis_df).
Proof.
  intros after. unfold after.
  assert (M : map month (rows (assign_month kobis_df))
              = map (fun r => option_map d_month (openDt r)) (rows kobis_df)).
  { unfold assign_month. simpl. rewrite map_map. reflexivity. }
  pose proof (has_open_dates_iff kobis_df) as D.
  split; [apply show_key_metrics_frame|].
  split; [apply show_insights_frame|].
  split.
  { intros N. destruct (has_open_dates kobis_df); [|reflexivity].
    elim N. now apply D. }
  split.
  { intros P. apply D in P. rewrite P.
    split; [|split; [|split]].
    - apply has_column_in. unfold assign_month, has_column. cbn [columns].
      destruct (existsb (String.eqb "month") (columns kobis_df)) eqn:E;
        [exact E|].
      rewrite existsb_app. cbn. now rewrite orb_true_r.
    - intros Hin. apply (has_column_in "month" kobis_df) in Hin.
      unfold assign_month. cbn [columns]. now rewrite Hin.
    - intros Hn. unfold assign_month. cbn [columns].
      destruct (has_column "month" kobis_df) eqn:E; [|reflexivity].
      elim Hn. now apply has_column_in.
    - exact M. }
  split.
  { destruct (has_open_dates kobis_df);
      [apply assign_month_same | apply same_but_month_refl]. }
  split.
  { destruct (has_open_dates kobis_df); [|reflexivity].
    unfold assign_month. cbn [rows]. apply length_map. }
  split.
  { destruct (has_open_dates kobis_df); [apply assign_month_rows | reflexivity]. }
  exact M.
Qed.

(** *** Missing cumulative audience *)

Lemma count_excluded (kobis_df : KobisFrame) :
  (count (map audiAcc (rows kobis_df)) + excluded kobis_df
   = length (rows kobis_df))%nat.
Proof.
  unfold count, excluded. induction (rows kobis_df) as [|r l IH]; [reflexivity|].
  simpl. destruct (audiAcc r); simpl; lia.
Qed.

(** The buckets do not see the rows without a value. *)
Lemma audience_counts_valid (kobis_df : KobisFrame) :
  audience_counts kobis_df
  = audience_counts (select (fun r => notna (audiAcc r)) kobis_df).
Proof.
  rewrite !audience_counts_buckets.
  apply map_ext. intros i. simpl. f_equal.
  rewrite filter_filter_andb. apply filter_ext. intros r.
  unfold in_bucket. now destruct (audiAcc r).
Qed.

(** C10, the claim fails on the ranking: a record with a missing
    cumulative audience is not skipped when fewer than ten records have
    a value.  Of two records, one without the value, both survive the
    load and both are ranked, the one without the value second; so it is
    on the page that [main] builds. *)
Lemma missing_row_is_ranked :
  load_and_process_data (Some (one_valid_one_missing, catalog))
  = Some (one_valid_one_missing, catalog_clean)
  /\ top_movies one_valid_one_missing
     = [(1%nat, acc "V" (Some 5)); (2%nat, acc "N" None)]
  /\ option_map (fun d => option_map ka_top_movies (tab2 d))
                (main (Some (one_valid_one_missing, catalog)))
     = Some (Some [(1%nat, acc "V" (Some 5)); (2%nat, acc "N" None)]).
Proof. repeat split; vm_compute; reflexivity. Qed.

(** C10, as the code has it.  After a successful load every domestic
    record has a present, non-negative audience count and sales amount
    (a record with either missing is removed).  The cumulative audience
    is not consulted by the load, so a record without it survives.  Such
    a record is in no audience bucket.  In the ranking it comes after
    every record with a value, so it is in the Top 10 only when fewer
    than ten records have a value.  It is counted in the total number of
    records, the denominator of the blockbuster rate. *)
Theorem missing_audiAcc_after_load (kobis_df k : KobisFrame)
        (tmdb_df t : TmdbFrame)
        (H : load_and_process_data (Some (kobis_df, tmdb_df)) = Some (k, t)) :
  Forall (fun r => exists a s, audiCnt r = Some a /\ 0 <= a
                               /\ salesAmt r = Some s /\ 0 <= s) (rows k)
  /\ rows k = filter kobis_kept (rows kobis_df)
  /\ (forall r a, kobis_kept r
                  = kobis_kept (mkKobis (movieNm r) (year r) (openDt r)
                                        (audiCnt r) (salesAmt r) a
                                        (scrnCnt r) (genres r) (month r)))
  /\ audience_counts k
     = audience_counts (select (fun r => notna (audiAcc r)) k)
  /\ (list_sum (audience_counts k) + excluded k = length (rows k))%nat
  /\ nlargest audiAccQ 10 (rows k)
     = firstn 10 (ranked audiAccQ (rows k))
       ++ firstn (10 - count (map audiAcc (rows k))) (nan_rows audiAccQ (rows k))
  /\ Forall (fun r => audiAcc r <> None) (ranked audiAccQ (rows k))
  /\ Forall (fun r => audiAcc r = None) (nan_rows audiAccQ (rows k))
  /\ total_movies k
     = Z.of_nat (count (map audiAcc (rows k)) + excluded k)
  /\ blockbuster_rate k
     = rate (blockbuster_count k)
            (Z.of_nat (count (map audiAcc (rows k)) + excluded k)).
Proof.
  apply load_inv in H. destruct H as [Hk _].
  assert (Hrows : rows k = filter kobis_kept (rows kobis_df))
    by (rewrite Hk; reflexivity).
  split; [|split; [exact Hrows|split; [reflexivity|]]].
  { rewrite Hrows. apply Forall_forall. intros r Hr.
    apply filter_In in Hr. destruct Hr as [_ Hr].
    apply kobis_kept_iff in Hr.
    destruct Hr as (y & a & s & _ & _ & Ha & Ha0 & Hs & Hs0).
    exists a, s. auto. }
  split; [apply audience_counts_valid|].
  split; [apply bucket_total|].
  split; [now rewrite nlargest_split, count_audiAccQ|].
  split.
  { eapply Permutation_Forall;
      [apply Permutation_sym, ranked_perm|].
    apply Forall_forall. intros r Hr. apply filter_In in Hr.
    destruct Hr as [_ Hr]. unfold valid, audiAccQ in Hr.
    destruct (audiAcc r); [discriminate | discriminate]. }
  split.
  { unfold nan_rows. apply Forall_forall. intros r Hr.
    apply filter_In in Hr. destruct Hr as [_ Hr]. unfold audiAccQ in Hr.
    destruct (audiAcc r); [discriminate | reflexivity]. }
  split.
  - unfold total_movies, len. now rewrite count_excluded.
  - unfold blockbuster_rate, total_movies, len. now rewrite count_excluded.
Qed.

Lemma missing_audiAcc_after_load_witness :
  load_and_process_data (Some (one_valid_one_missing, catalog))
  = Some (one_valid_one_missing, catalog_clean)
  /\ rows one_valid_one_missing
     = filter kobis_kept (rows one_valid_one_missing).
Proof.
  assert (H : load_and_process_data (Some (one_valid_one_missing, catalog))
              = Some (one_valid_one_missing, catalog_clean)) by reflexivity.
  split; [exact H|].
  apply (@missing_audiAcc_after_load one_valid_one_missing
           one_valid_one_missing catalog catalog_clean H).
Defined.

(** ** Further properties of the program *)

(** *** The order of group keys *)

(** *** Means over loaded frames *)

Lemma valid_audience_eq (g : str) (l : list KobisRow) :
  valid_audience g l
  = Zsum (map (fun row => occurrences g row * audiCnt0 row) l).
Proof.
  unfold valid_audience, audiCnt0. f_equal. apply map_ext. intros row.
  destruct (audiCnt row); lia.
Qed.

Lemma valid_sales_eq (g : str) (l : list KobisRow) :
  valid_sales g l
  = Zsum (map (fun row => occurrences g row * salesAmt0 row) l).
Proof.
  unfold valid_sales, salesAmt0. f_equal. apply map_ext. intros row.
  destruct (salesAmt row); lia.
Qed.

Lemma valid_listings_eq (g : str) (l : list KobisRow) :
  Forall (fun row => audiCnt row <> None /\ salesAmt row <> None) l ->
  valid_listings g l = Zsum (map (occurrences g) l).
Proof.
  intros F. unfold valid_listings. f_equal. apply map_ext_in. intros row Hin.
  rewrite Forall_forall in F. destruct (F _ Hin) as [Ha _].
  destruct (audiCnt row); [reflexivity | now elim Ha].
Qed.

(** No record of a loaded series lacks its audience count or its sales
    amount, whichever of its rows are selected and whether or not the
    month column has been assigned. *)
Lemma loaded_counts_present (kobis_df k f : KobisFrame) (tmdb_df t : TmdbFrame)
      (p : KobisRow -> bool) :
  load_and_process_data (Some (kobis_df, tmdb_df)) = Some (k, t) ->
  f = select p k \/ f = assign_month (select p k) ->
  Forall (fun row => audiCnt row <> None /\ salesAmt row <> None) (rows f).
Proof.
  intros L Hf. apply load_inv in L. destruct L as [-> _].
  assert (B : Forall (fun row => audiCnt row <> None /\ salesAmt row <> None)
                     (rows (select p (select kobis_kept kobis_df)))).
  { apply Forall_forall. intros r Hr. simpl in Hr.
    apply filter_In in Hr. destruct Hr as [Hr _].
    apply filter_In in Hr. destruct Hr as [_ Hr].
    apply kobis_kept_iff in Hr.
    destruct Hr as (y & a & s & _ & _ & -> & _ & -> & _).
    split; discriminate. }
  destruct Hf as [-> | ->]; [exact B|].
  unfold assign_month. cbn [rows]. apply Forall_map.
  eapply Forall_impl; [|exact B]. intros r H. exact H.
Qed.

Lemma loaded_ratings_present (kobis_df k : KobisFrame) (tmdb_df t : TmdbFrame)
      (q : TmdbRow -> bool) :
  load_and_process_data (Some (kobis_df, tmdb_df)) = Some (k, t) ->
  Forall (fun r => vote_average r <> None) (rows (select q t)).
Proof.
  intros L. apply load_inv in L. destruct L as [_ ->].
  apply Forall_forall. intros r Hr. simpl in Hr.
  apply filter_In in Hr. destruct Hr as [Hr _].
  apply filter_In in Hr. destruct Hr as [_ Hr].
  apply tmdb_kept_iff in Hr. destruct Hr as (y & v & _ & _ & -> & _).
  discriminate.
Qed.

Lemma dropna_all_present (A B : Type) (f : A -> option B) (l : list A) :
  Forall (fun r => f r <> None) l -> length (dropna (map f l)) = length l.
Proof.
  induction 1 as [|r l Hr _ IH]; [reflexivity|].
  simpl. destruct (f r); [|now elim Hr]. simpl. now rewrite IH.
Qed.

Lemma isna_all_dropna (A : Type) (s : list (option A)) :
  isna_all s = true <-> dropna s = [].
Proof.
  rewrite <- count_zero_isna. unfold count.
  split; [apply length_zero_iff_nil | intros ->; reflexivity].
Qed.

(** C2.  On the frames the aggregations receive, that is on a loaded
    series and a loaded catalog, any selection of their rows taken (the
    page takes the recent years) and the month column assigned or not:
    no record lacks its audience count or sales amount, so in the genre
    aggregation every listing of a genre is a valid contribution; the
    group's count is the number of valid contributions, which is
    positive, its sums are the sums of the valid values, and its mean
    is their sum over their number (rounded to a whole number).  In the
    language aggregation the film count is the number of entries with a
    title, the mean of a column is taken over the entries of the group
    whose value is present, with their number as denominator, and is
    missing exactly when no entry has a value; every group has a mean
    rating, taken over all its entries.  Of a column without any valid
    value the sum is 0 and the mean is missing. *)
Theorem mean_denominators (kobis_df k f : KobisFrame) (tmdb_df t : TmdbFrame)
        (p : KobisRow -> bool) (q : TmdbRow -> bool)
        (s : GenreSummary) (l : LangSummary)
        (Hload : load_and_process_data (Some (kobis_df, tmdb_df)) = Some (k, t))
        (Hf : f = select p k \/ f = assign_month (select p k))
        (Hs : In s (genre_agg (genre_data f)))
        (Hl : In l (lang_agg (rows (select q t)))) :
  Forall (fun row => audiCnt row <> None /\ salesAmt row <> None) (rows f)
  /\ 0 < valid_listings (gs_genre s) (rows f)
  /\ Z.of_nat (gs_count s) = valid_listings (gs_genre s) (rows f)
  /\ gs_sum s = valid_audience (gs_genre s) (rows f)
  /\ gs_sales s = valid_sales (gs_genre s) (rows f)
  /\ (exists m, gs_mean s = Some (round0 m)
                /\ (m * inject_Z (valid_listings (gs_genre s) (rows f))
                    == inject_Z (valid_audience (gs_genre s) (rows f)))%Q)
  /\ (let grp := get_group PyStr.compare original_language (ls_language l)
                           (rows (select q t)) in
      let ratings := dropna (map vote_average grp) in
      let popular := dropna (map popularity grp) in
      grp <> []
      /\ ls_count l = length (dropna (map title grp))
      /\ length ratings = length grp
      /\ match ls_rating l with
         | None => False
         | Some m => (m * inject_Z (Z.of_nat (length ratings)) == Qsum ratings)%Q
         end
      /\ match ls_popularity l with
         | None => popular = []
         | Some m =>
             popular <> []
             /\ (m * inject_Z (Z.of_nat (length popular)) == Qsum popular)%Q
         end)
  /\ (forall col : list (option Z),
         isna_all col = true -> sum col = 0 /\ meanZ col = None)
  /\ (forall col : list (option Q), isna_all col = true -> mean col = None).
Proof.
  pose proof (@loaded_counts_present kobis_df k f tmdb_df t p Hload Hf) as P.
  pose proof (@loaded_ratings_present kobis_df k tmdb_df t q Hload) as R.
  apply genre_agg_inv in Hs. destruct Hs as (Hkey & Hsum & Hcnt & Hsales & Hmean).
  set (grp := get_group PyStr.compare genre_key (gs_genre s) (genre_data f)) in *.
  assert (Hne : grp <> []) by (apply group_nonempty; [apply compare_refl | exact Hkey]).
  assert (Ecnt : Z.of_nat (gs_count s) = valid_listings (gs_genre s) (rows f)).
  { rewrite Hcnt, (valid_listings_eq _ P). apply group_size. }
  assert (Esum : gs_sum s = valid_audience (gs_genre s) (rows f)).
  { rewrite Hsum, valid_audience_eq. apply group_audience. }
  split; [exact P|].
  split.
  { rewrite <- Ecnt, Hcnt. destruct grp; [now elim Hne | simpl; lia]. }
  split; [exact Ecnt|].
  split; [exact Esum|].
  split.
  { rewrite Hsales, valid_sales_eq. apply group_sales. }
  split.
  { destruct (meanZ_present g_audiCnt Hne) as [m [Em Hm]].
    exists m. split; [now rewrite Hmean, Em|].
    now rewrite <- Ecnt, <- Esum, Hcnt, Hsum. }
  split.
  { assert (Hlk : In (ls_language l)
                     (group_keys PyStr.compare original_language
                                 (rows (select q t)))).
    { unfold lang_agg, groupby in Hl. rewrite map_map in Hl.
      apply in_map_iff in Hl. destruct Hl as [k0 [<- Hk0]]. exact Hk0. }
    apply lang_agg_inv in Hl. destruct Hl as (Hc & Hr & Hp).
    set (lg := get_group PyStr.compare original_language (ls_language l)
                         (rows (select q t))) in *.
    assert (Hlne : lg <> [])
      by (apply group_nonempty; [apply compare_refl | exact Hlk]).
    assert (Rg : Forall (fun r => vote_average r <> None) lg).
    { apply Forall_forall. intros r Hr0. unfold lg, get_group in Hr0.
      apply filter_In in Hr0. destruct Hr0 as [Hr0 _].
      rewrite Forall_forall in R. now apply R. }
    pose proof (dropna_all_present vote_average Rg) as Len.
    cbv zeta. split; [exact Hlne|]. split; [exact Hc|]. split; [exact Len|].
    split.
    - rewrite Hr. pose proof (mean_spec (map vote_average lg)) as M.
      destruct (mean (map vote_average lg)) as [m|].
      + now destruct M.
      + rewrite M in Len. destruct lg; [now elim Hlne | discriminate].
    - rewrite Hp. apply mean_spec. }
  split.
  - intros col Hc. apply isna_all_dropna in Hc.
    unfold meanZ, sum. rewrite Hc. split; [reflexivity|].
    unfold mean.
    assert (E : dropna (map (option_map inject_Z) col) = []).
    { clear - Hc. induction col as [|[x|] col IH]; simpl in *;
        [reflexivity | discriminate | auto]. }
    now rewrite E.
  - intros col Hc. apply isna_all_dropna in Hc. unfold mean. now rewrite Hc.
Qed.

Lemma mean_denominators_witness :
  load_and_process_data (Some (missing_and_ten, catalog))
  = Some (only_ten, catalog_clean)
  /\ In ten_summary (genre_agg (genre_data (select recent only_ten)))
  /\ In en_clean_summary (lang_agg (rows (select recent_entry catalog_clean)))
  /\ Z.of_nat (gs_count ten_summary)
     = valid_listings (gs_genre ten_summary) (rows (select recent only_ten)).
Proof.
  assert (L : load_and_process_data (Some (missing_and_ten, catalog))
              = Some (only_ten, catalog_clean)) by reflexivity.
  assert (Hs : In ten_summary (genre_agg (genre_data (select recent only_ten))))
    by (vm_compute; left; reflexivity).
  assert (Hl : In en_clean_summary
                  (lang_agg (rows (select recent_entry catalog_clean))))
    by (vm_compute; left; reflexivity).
  split; [exact L|]. split; [exact Hs|]. split; [exact Hl|].
  apply (@mean_denominators missing_and_ten only_ten (select recent only_ten)
           catalog catalog_clean recent recent_entry ten_summary
           en_clean_summary L (or_introl eq_refl) Hs Hl).
Defined.

Lemma compare_antisym (a b : str) :
  PyStr.compare b a = CompOpp (PyStr.compare a b).
Proof.
  revert b; induction a as [|x a IH]; intros [|y b]; simpl; try reflexivity.
  rewrite (N.compare_antisym x y).
  destruct (N.compare x y); simpl; auto.
Qed.

Lemma compare_trans (a b c : str) :
  PyStr.compare a b = Lt -> PyStr.compare b c = Lt -> PyStr.compare a c = Lt.
Proof.
  revert b c; induction a as [|x a IH]; intros [|y b] [|z c]; simpl;
    try discriminate; try reflexivity.
  destruct (N.compare x y) eqn:Exy; try discriminate;
    destruct (N.compare y z) eqn:Eyz; try discriminate; intros Hab Hbc.
  - apply N.compare_eq in Exy, Eyz. subst. rewrite N.compare_refl.
    eapply IH; eassumption.
  - apply N.compare_eq in Exy. subst. now rewrite Eyz.
  - apply N.compare_eq in Eyz. subst. now rewrite Exy.
  - apply N.compare_lt_iff in Exy, Eyz.
    now rewrite (proj2 (N.compare_lt_iff x z) (N.lt_trans _ _ _ Exy Eyz)).
Qed.

Lemma Zsum_cons (x : Z) (l : list Z) : Zsum (x :: l) = x + Zsum l.
Proof. reflexivity. Qed.

Section KeyOrder.
Variables A K : Type.
Variable cmp : K -> K -> comparison.
Variable key : A -> option K.
Hypothesis cmp_eq : forall a b, cmp a b = Eq <-> a = b.
Hypothesis cmp_antisym : forall a b, cmp b a = CompOpp (cmp a b).
Hypothesis cmp_trans : forall a b c, cmp a b = Lt -> cmp b c = Lt -> cmp a c = Lt.

Let lt (a b : K) : Prop := cmp a b = Lt.

Lemma insert_key_in (k x : K) (l : list K) :
  In x (insert_key cmp k l) <-> x = k \/ In x l.
Proof.
  induction l as [|y l IH]; simpl.
  - intuition.
  - destruct (cmp k y) eqn:E; simpl.
    + apply cmp_eq in E. subst y. intuition.
    + intuition.
    + rewrite IH. intuition.
Qed.

Lemma insert_key_sorted (k : K) (l : list K) :
  StronglySorted lt l -> StronglySorted lt (insert_key cmp k l).
Proof.
  induction l as [|y l IH]; simpl; intros S.
  - repeat constructor.
  - inversion S as [|? ? Sl Hall]; subst.
    destruct (cmp k y) eqn:E.
    + exact S.
    + constructor; [exact S|].
      constructor; [exact E|].
      eapply Forall_impl; [|exact Hall].
      intros z Hz. unfold lt in *. eapply cmp_trans; eassumption.
    + constructor; [now apply IH|].
      apply Forall_forall. intros z Hz. apply insert_key_in in Hz.
      destruct Hz as [->|Hz].
      * unfold lt. rewrite cmp_antisym, E. reflexivity.
      * rewrite Forall_forall in Hall. now apply Hall.
Qed.

Lemma group_keys_sorted (l : list A) :
  StronglySorted lt (group_keys cmp key l).
Proof.
  induction l as [|r l IH]; simpl; [constructor|].
  destruct (key r); [now apply insert_key_sorted | exact IH].
Qed.

Lemma group_keys_in (k : K) (l : list A) :
  In k (group_keys cmp key l) <-> exists r, In r l /\ key r = Some k.
Proof.
  induction l as [|r l IH]; simpl.
  - split; [intros [] | intros [r [[] _]]].
  - destruct (key r) as [k'|] eqn:E.
    + rewrite insert_key_in, IH. split.
      * intros [->|[r' [? ?]]]; [exists r; auto | exists r'; auto].
      * intros [r' [[<-|Hin] Hk]]; [left; congruence | right; eauto].
    + rewrite IH. split.
      * intros [r' [? ?]]; exists r'; auto.
      * intros [r' [[<-|Hin] Hk]]; [congruence | eauto].
Qed.

Lemma sorted_nodup (l : list K) : StronglySorted lt l -> NoDup l.
Proof.
  induction 1 as [|x l _ IH Hall]; constructor; [|exact IH].
  intros Hin. rewrite Forall_forall in Hall. specialize (Hall _ Hin).
  unfold lt in Hall. rewrite (proj2 (cmp_eq x x) eq_refl) in Hall.
  discriminate.
Qed.

Lemma group_keys_nodup (l : list A) : NoDup (group_keys cmp key l).
Proof. apply sorted_nodup, group_keys_sorted. Qed.

(** A row is in the group of exactly one key of a duplicate-free list
    that holds its key, and in no group when it has no key. *)
Lemma one_group (r : A) (ks : list K) :
  NoDup ks ->
  (forall k, key r = Some k -> In k ks) ->
  Zsum (map (fun k => Z.b2z (in_group cmp key k r)) ks)
  = Z.b2z (notna (key r)).
Proof.
  unfold in_group. destruct (key r) as [k|]; simpl.
  - intros ND Hin. specialize (Hin k eq_refl).
    induction ND as [|x ks Hx ND IH]; [destruct Hin|].
    simpl. destruct Hin as [->|Hin].
    + rewrite (proj2 (cmp_eq k k) eq_refl). simpl.
      assert (Z0 : Zsum (map (fun k0 => Z.b2z match cmp k0 k with
                                              | Eq => true | _ => false end) ks)
                   = 0).
      { clear IH ND. induction ks as [|y ks IHk]; [reflexivity|].
        simpl. destruct (cmp y k) eqn:E.
        - apply cmp_eq in E. subst y. elim Hx. now left.
        - simpl. apply IHk. intros H; apply Hx; now right.
        - simpl. apply IHk. intros H; apply Hx; now right. }
      rewrite Z0. reflexivity.
    + rewrite (IH Hin). destruct (cmp x k) eqn:E; simpl; try reflexivity.
      apply cmp_eq in E. subst x. contradiction.
  - intros _ _. induction ks as [|x ks IH]; simpl; [reflexivity | exact IH].
Qed.

(** The groups split the rows that have a key: a quantity added up
    group by group is the quantity added up over those rows. *)
Lemma groups_partition (f : A -> Z) (ks : list K) (l : list A) :
  NoDup ks ->
  (forall r k, In r l -> key r = Some k -> In k ks) ->
  Zsum (map (fun k => Zsum (map f (get_group cmp key k l))) ks)
  = Zsum (map f (filter (fun r => notna (key r)) l)).
Proof.
  intros ND. induction l as [|r l IH]; intros Hcov.
  - simpl. clear ND Hcov.
    induction ks as [|k ks IHk]; simpl; [reflexivity | exact IHk].
  - assert (E : forall k, Zsum (map f (get_group cmp key k (r :: l)))
                          = Z.b2z (in_group cmp key k r) * f r
                            + Zsum (map f (get_group cmp key k l))).
    { intros k. unfold get_group. cbn [filter].
      destruct (in_group cmp key k r); cbn [map Z.b2z];
        rewrite ?Zsum_cons; lia. }
    assert (S : forall ks',
               Zsum (map (fun k => Zsum (map f (get_group cmp key k (r :: l)))) ks')
               = Zsum (map (fun k => Z.b2z (in_group cmp key k r)) ks') * f r
                 + Zsum (map (fun k => Zsum (map f (get_group cmp key k l))) ks')).
    { induction ks' as [|k ks' IHk]; [reflexivity|].
      cbn [map]. rewrite !Zsum_cons, IHk, E. lia. }
    rewrite S, IH by (intros r' k Hin; apply Hcov; now right).
    rewrite one_group; [|exact ND|intros k Hk; eapply Hcov; [now left|exact Hk]].
    cbn [filter]. destruct (notna (key r)); cbn [map Z.b2z];
      rewrite ?Zsum_cons; lia.
Qed.

Lemma groupby_partition (f : A -> Z) (l : list A) :
  Zsum (map (fun g => Zsum (map f (snd g))) (groupby cmp key l))
  = Zsum (map f (filter (fun r => notna (key r)) l)).
Proof.
  unfold groupby. rewrite map_map. simpl.
  apply groups_partition; [apply group_keys_nodup|].
  intros r k Hin Hk. apply group_keys_in. eauto.
Qed.
End KeyOrder.

Lemma Zcompare_antisym (a b : Z) : Z.compare b a = CompOpp (Z.compare a b).
Proof. apply Z.compare_antisym. Qed.

Lemma Zcompare_trans (a b c : Z) :
  Z.compare a b = Lt -> Z.compare b c = Lt -> Z.compare a c = Lt.
Proof. rewrite !Z.compare_lt_iff. lia. Qed.

Lemma str_compare_eq (a b : str) : PyStr.compare a b = Eq <-> a = b.
Proof. split; [apply compare_eq | intros ->; apply compare_refl]. Qed.

Lemma filter_all (A : Type) (l : list A) : filter (fun _ => true) l = l.
Proof. induction l; simpl; congruence. Qed.

(** *** Genre and language groups *)

Lemma genre_agg_labels (genre_df : list GenreRow) :
  map gs_genre (genre_agg genre_df)
  = group_keys PyStr.compare genre_key genre_df.
Proof.
  unfold genre_agg, groupby. rewrite !map_map. simpl. apply map_id.
Qed.

Lemma genre_agg_nodup (genre_df : list GenreRow) :
  NoDup (map gs_genre (genre_agg genre_df)).
Proof.
  rewrite genre_agg_labels.
  apply group_keys_nodup;
    [apply str_compare_eq | apply compare_antisym | apply compare_trans].
Qed.

(** X1.  The genre aggregate has one row for each distinct label of the
    exploded rows, no label twice, in ascending code-point order of the
    labels. *)
Theorem genre_agg_one_row_per_label (genre_df : list GenreRow) (g : str) :
  NoDup (map gs_genre (genre_agg genre_df))
  /\ StronglySorted (fun a b => PyStr.compare a b = Lt)
                    (map gs_genre (genre_agg genre_df))
  /\ (In g (map gs_genre (genre_agg genre_df)) <-> In g (map genre genre_df)).
Proof.
  split; [apply genre_agg_nodup|].
  rewrite genre_agg_labels. split.
  - apply group_keys_sorted;
      [apply str_compare_eq | apply compare_antisym | apply compare_trans].
  - rewrite group_keys_in by apply str_compare_eq.
    rewrite in_map_iff. unfold genre_key. split.
    + intros [r [Hin Hk]]. exists r. split; [congruence | exact Hin].
    + intros [r [Hg Hin]]. exists r. split; [exact Hin | congruence].
Qed.

Lemma exploded_audience (l : list KobisRow) :
  Zsum (map g_audiCnt (flat_map explode_row l))
  = Zsum (map (fun row => Z.of_nat (length (labels row)) * audiCnt0 row) l).
Proof.
  induction l as [|row l IH]; [reflexivity|].
  simpl. rewrite map_app, Zsum_app, IH, explode_row_labels, map_map. simpl.
  f_equal. induction (labels row) as [|x xs IHx]; [reflexivity|].
  cbn [map length]. rewrite Zsum_cons, IHx. lia.
Qed.

Lemma exploded_count (l : list KobisRow) :
  length (flat_map explode_row l)
  = list_sum (map (fun row => length (labels row)) l).
Proof.
  induction l as [|row l IH]; [reflexivity|].
  simpl. rewrite length_app, IH, explode_row_labels, length_map. reflexivity.
Qed.

(** X2.  Added up over all genres, the audience totals count every record
    once per label it carries, and the counts add up to the number of
    exploded rows. *)
Theorem genre_totals_count_per_label (kobis_df : KobisFrame) :
  Zsum (map gs_sum (genre_agg (genre_data kobis_df)))
  = Zsum (map (fun row => Z.of_nat (length (labels row)) * audiCnt0 row)
              (rows kobis_df))
  /\ Zsum (map (fun s => Z.of_nat (gs_count s)) (genre_agg (genre_data kobis_df)))
     = Z.of_nat (list_sum (map (fun row => length (labels row)) (rows kobis_df))).
Proof.
  unfold genre_agg. rewrite !map_map. cbn [gs_sum gs_count].
  split.
  - erewrite map_ext by (intros g; apply sum_some).
    rewrite (@groupby_partition _ _ PyStr.compare genre_key str_compare_eq
                                compare_antisym compare_trans g_audiCnt).
    unfold genre_key. cbn [notna]. rewrite filter_all.
    apply exploded_audience.
  - erewrite map_ext
      by (intros g; rewrite count_some;
          instantiate (1 := fun g => Zsum (map (fun _ => 1) (snd g)));
          cbn beta; induction (snd g) as [|x xs IHx];
          [reflexivity | cbn [map length]; rewrite Zsum_cons, <- IHx; lia]).
    rewrite (@groupby_partition _ _ PyStr.compare genre_key str_compare_eq
                                compare_antisym compare_trans (fun _ => 1)).
    unfold genre_key. cbn [notna]. rewrite filter_all.
    unfold genre_data. rewrite <- exploded_count.
    induction (flat_map explode_row (rows kobis_df)) as [|x xs IHx];
      [reflexivity | cbn [map length]; rewrite Zsum_cons, IHx; lia].
Qed.

(** *** Sorted summaries *)

Lemma sort_values_desc_perm (A : Type) (col : A -> Z) (l : list A) :
  Permutation (sort_values_desc col l) l.
Proof.
  unfold sort_values_desc.
  eapply perm_trans; [apply Permutation_map, sort_desc_perm|].
  rewrite map_map. simpl. rewrite map_id. apply Permutation_refl.
Qed.

Lemma sort_values_desc_sorted (A : Type) (col : A -> Z) (l : list A) :
  StronglySorted (fun a b => col b <= col a) (sort_values_desc col l).
Proof.
  unfold sort_values_desc.
  set (ps := map (fun r => (inject_Z (col r), r)) l).
  assert (K : Forall (fun p => fst p = inject_Z (col (snd p))) (sort_desc ps)).
  { eapply Permutation_Forall; [apply Permutation_sym, sort_desc_perm|].
    unfold ps. apply Forall_map. simpl. now apply Forall_forall. }
  pose proof (sort_desc_sorted ps) as S.
  induction S as [|p qs _ IH Hall]; [constructor|].
  inversion K as [|? ? Kp Kqs]; subst. simpl.
  constructor; [now apply IH|].
  apply Forall_map. rewrite Forall_forall in *.
  intros q Hq. specialize (Hall _ Hq). specialize (Kqs _ Hq). simpl in Hall.
  rewrite Kp, Kqs in Hall. rewrite Zle_Qle. exact Hall.
Qed.

Lemma sorted_app (A : Type) (R : A -> A -> Prop) (l1 l2 : list A) :
  StronglySorted R (l1 ++ l2) ->
  forall a b, In a l1 -> In b l2 -> R a b.
Proof.
  induction l1 as [|x l1 IH]; simpl; intros S a b Ha Hb; [destruct Ha|].
  inversion S as [|? ? S' Hall]; subst.
  destruct Ha as [<-|Ha]; [|now apply IH].
  rewrite Forall_forall in Hall. apply Hall, in_or_app. now right.
Qed.

(** The head of a frame sorted on a column: the rows with the largest
    values, largest first. *)
Lemma head_of_sorted (A : Type) (col : A -> Z) (n : nat) (l : list A) :
  let top := firstn n (sort_values_desc col l) in
  length top = Nat.min n (length l)
  /\ StronglySorted (fun a b => col b <= col a) top
  /\ exists rest, Permutation (top ++ rest) l
                  /\ forall a b, In a top -> In b rest -> col b <= col a.
Proof.
  intros top. unfold top. split; [|split].
  - rewrite length_firstn, (Permutation_length (sort_values_desc_perm col l)).
    reflexivity.
  - apply sorted_firstn, sort_values_desc_sorted.
  - exists (skipn n (sort_values_desc col l)). split.
    + rewrite firstn_skipn. apply sort_values_desc_perm.
    + apply (sorted_app (R := fun a b => col b <= col a)).
      rewrite firstn_skipn. apply sort_values_desc_sorted.
Qed.

Lemma isna_all_no_genre (l : list KobisRow) :
  isna_all (map genres l) = true -> flat_map explode_row l = [].
Proof.
  induction l as [|r l IH]; [reflexivity|].
  simpl. unfold explode_row at 1.
  destruct (genres r); simpl; [discriminate|]. exact IH.
Qed.

Lemma genre_agg_nonempty (genre_df : list GenreRow) :
  genre_df <> [] -> genre_agg genre_df <> [].
Proof.
  intros Hne E. apply (f_equal (map gs_genre)) in E.
  rewrite genre_agg_labels in E. destruct genre_df as [|r l]; [now elim Hne|].
  assert (Hin : In (genre r) (group_keys PyStr.compare genre_key (r :: l))).
  { apply group_keys_in; [apply str_compare_eq|]. exists r.
    split; [now left | reflexivity]. }
  rewrite E in Hin. destruct Hin.
Qed.

(** X3.  The genre chart is skipped exactly when the frame has no genre
    column or no record yields a label. *)
Theorem genre_summary_skipped (kobis_df : KobisFrame) :
  genre_summary kobis_df = None
  <-> has_column "genres" kobis_df = false \/ genre_data kobis_df = [].
Proof.
  unfold genre_summary.
  destruct (has_column "genres" kobis_df); simpl; [|tauto].
  destruct (isna_all (map genres (rows kobis_df))) eqn:E; simpl.
  - apply isna_all_no_genre in E. unfold genre_data. tauto.
  - destruct (genre_data kobis_df); split; try tauto; try discriminate.
    intros [H|H]; discriminate.
Qed.

(** X4.  When the genre chart is drawn it shows at most eight genres, at
    least one, each once: the genres with the largest total audience,
    largest first, each with the figures of its group. *)
Theorem genre_summary_top8 (kobis_df : KobisFrame) (gs : list GenreSummary)
        (H : genre_summary kobis_df = Some gs) :
  let agg := genre_agg (genre_data kobis_df) in
  length gs = Nat.min 8 (length agg)
  /\ gs <> []
  /\ StronglySorted (fun a b => gs_sum b <= gs_sum a) gs
  /\ NoDup (map gs_genre gs)
  /\ exists rest, Permutation (gs ++ rest) agg
                  /\ forall a b, In a gs -> In b rest -> gs_sum b <= gs_sum a.
Proof.
  intros agg. unfold genre_summary in H.
  destruct (has_column "genres" kobis_df
            && negb (isna_all (map genres (rows kobis_df)))); [|discriminate].
  destruct (genre_data kobis_df) as [|e gd] eqn:G; [discriminate|].
  assert (Hgs : gs = firstn 8 (sort_values_desc gs_sum (genre_agg (e :: gd))))
    by (injection H as H; symmetry; exact H).
  clear H. subst agg.
  destruct (head_of_sorted gs_sum 8 (genre_agg (e :: gd)))
    as (Hlen & Hs & rest & Hp & Hr).
  rewrite <- Hgs in Hlen, Hs, Hp, Hr. clear Hgs.
  assert (Hne : genre_agg (e :: gd) <> [])
    by (apply genre_agg_nonempty; discriminate).
  repeat split; try assumption.
  - intros E. rewrite E in Hlen. cbn [length] in Hlen.
    destruct (genre_agg (e :: gd)); [now elim Hne | discriminate].
  - pose proof (genre_agg_nodup (e :: gd)) as ND.
    apply (Permutation_NoDup (Permutation_map gs_genre (Permutation_sym Hp))) in ND.
    rewrite map_app in ND. now apply NoDup_app_remove_r in ND.
  - exists rest. split; assumption.
Qed.

Lemma sorted_impl (A : Type) (R R' : A -> A -> Prop) (l : list A) :
  (forall a b, R a b -> R' a b) -> StronglySorted R l -> StronglySorted R' l.
Proof.
  intros HR. induction 1 as [|x l _ IH Hall]; constructor; [exact IH|].
  eapply Forall_impl; [|exact Hall]. intros b. apply HR.
Qed.

Lemma lang_agg_languages (tmdb_df : list TmdbRow) :
  map ls_language (lang_agg tmdb_df)
  = group_keys PyStr.compare original_language tmdb_df.
Proof.
  unfold lang_agg, groupby. rewrite !map_map. simpl. apply map_id.
Qed.

Lemma lang_agg_nodup (tmdb_df : list TmdbRow) :
  NoDup (map ls_language (lang_agg tmdb_df)).
Proof.
  rewrite lang_agg_languages.
  apply group_keys_nodup;
    [apply str_compare_eq | apply compare_antisym | apply compare_trans].
Qed.

Lemma count_as_sum (A B : Type) (f : A -> option B) (l : list A) :
  Z.of_nat (count (map f l)) = Zsum (map (fun r => Z.b2z (notna (f r))) l).
Proof.
  unfold count. induction l as [|r l IH]; [reflexivity|].
  cbn [map]. rewrite Zsum_cons, <- IH. unfold dropna. cbn [flat_map].
  destruct (f r); cbn [app length notna Z.b2z]; lia.
Qed.

Lemma length_as_sum (A : Type) (p : A -> bool) (l : list A) :
  Z.of_nat (length (filter p l)) = Zsum (map (fun r => Z.b2z (p r)) l).
Proof.
  induction l as [|r l IH]; [reflexivity|].
  cbn [map filter]. rewrite Zsum_cons, <- IH.
  destruct (p r); cbn [length Z.b2z]; lia.
Qed.

Lemma Zsum_filter (A : Type) (p : A -> bool) (f : A -> Z) (l : list A) :
  Zsum (map f (filter p l)) = Zsum (map (fun r => Z.b2z (p r) * f r) l).
Proof.
  induction l as [|r l IH]; [reflexivity|].
  cbn [map filter]. rewrite Zsum_cons, <- IH.
  destruct (p r); cbn [map Z.b2z]; rewrite ?Zsum_cons; lia.
Qed.

(** X5.  The language aggregate has one row for each language present in
    the catalog, no language twice; their number is the language count
    of the insight box; and the film counts of the rows add up to the
    number of entries that have both a language and a title. *)
Theorem lang_agg_covers_languages (tmdb_df : TmdbFrame) (lang : str) :
  NoDup (map ls_language (lang_agg (rows tmdb_df)))
  /\ unique_languages tmdb_df = length (lang_agg (rows tmdb_df))
  /\ (In lang (map ls_language (lang_agg (rows tmdb_df)))
      <-> exists r, In r (rows tmdb_df) /\ original_language r = Some lang)
  /\ Zsum (map (fun s => Z.of_nat (ls_count s)) (lang_agg (rows tmdb_df)))
     = Z.of_nat (length (filter (fun r => notna (original_language r)
                                          && notna (title r))
                                (rows tmdb_df))).
Proof.
  split; [apply lang_agg_nodup|]. split; [|split].
  - unfold unique_languages. now rewrite <- lang_agg_languages, length_map.
  - rewrite lang_agg_languages. apply group_keys_in, str_compare_eq.
  - unfold lang_agg. rewrite map_map. cbn [ls_count].
    erewrite map_ext by (intros g; apply count_as_sum).
    rewrite (@groupby_partition _ _ PyStr.compare original_language
               str_compare_eq compare_antisym compare_trans
               (fun r => Z.b2z (notna (title r)))).
    rewrite Zsum_filter, length_as_sum. f_equal. apply map_ext. intros r.
    destruct (notna (original_language r)), (notna (title r)); reflexivity.
Qed.

(** X6.  When the language chart is drawn it shows at most ten languages,
    each once: those with the most titled films, most first. *)
Theorem lang_analysis_top10 (tmdb_df : TmdbFrame) (ls : list LangSummary)
        (H : lang_analysis tmdb_df = Some ls) :
  has_column "original_language" tmdb_df = true
  /\ length ls = Nat.min 10 (unique_languages tmdb_df)
  /\ StronglySorted (fun a b => (ls_count b <= ls_count a)%nat) ls
  /\ NoDup (map ls_language ls)
  /\ exists rest, Permutation (ls ++ rest) (lang_agg (rows tmdb_df))
                  /\ forall a b, In a ls -> In b rest ->
                                 (ls_count b <= ls_count a)%nat.
Proof.
  unfold lang_analysis in H.
  destruct (has_column "original_language" tmdb_df); [|discriminate].
  assert (Hls : ls = firstn 10 (sort_values_desc
                                  (fun l => Z.of_nat (ls_count l))
                                  (lang_agg (rows tmdb_df))))
    by (injection H as H; symmetry; exact H).
  clear H.
  destruct (head_of_sorted (fun l => Z.of_nat (ls_count l)) 10
                           (lang_agg (rows tmdb_df)))
    as (Hlen & Hs & rest & Hp & Hr).
  rewrite <- Hls in Hlen, Hs, Hp, Hr. clear Hls.
  split; [reflexivity|]. split; [|split; [|split]].
  - rewrite Hlen. unfold unique_languages.
    now rewrite <- lang_agg_languages, length_map.
  - eapply sorted_impl; [|exact Hs].
    intros a b Hab. simpl in Hab. lia.
  - pose proof (lang_agg_nodup (rows tmdb_df)) as ND.
    apply (Permutation_NoDup (Permutation_map ls_language (Permutation_sym Hp)))
      in ND.
    rewrite map_app in ND. now apply NoDup_app_remove_r in ND.
  - exists rest. split; [exact Hp|].
    intros a b Ha Hb. specialize (Hr a b Ha Hb). lia.
Qed.

(** *** Genre labels *)

(** X7.  Every exploded row carries a clean label: not empty, without a
    comma, and beginning and ending with a character that is not white
    space. *)
Theorem genre_labels_clean (kobis_df : KobisFrame) (e : GenreRow)
        (H : In e (genre_data kobis_df)) :
  ~ In PyStr.comma (genre e)
  /\ exists c t d u, genre e = c :: t /\ PyStr.isspace c = false
                     /\ rev (genre e) = d :: u /\ PyStr.isspace d = false.
Proof.
  unfold genre_data in H. apply in_flat_map in H. destruct H as [row [_ He]].
  rewrite explode_row_labels in He. apply in_map_iff in He.
  destruct He as [g [<- Hg]]. simpl.
  unfold labels in Hg. apply filter_In in Hg. destruct Hg as [Hg Ht].
  apply in_map_iff in Hg. destruct Hg as [p [<- Hp]].
  split.
  - intros Hc. apply strip_in in Hc.
    unfold parts in Hp. destruct (genres row) as [gs|]; [|destruct Hp].
    pose proof (split_no_sep PyStr.comma gs) as F.
    rewrite Forall_forall in F. exact (F _ Hp Hc).
  - apply strip_ends. intros E. rewrite E in Ht. discriminate.
Qed.

Lemma genre_labels_clean_witness :
  In (mkGenreRow (PyStr.lit "Drama") 500000 0) (genre_data scenario)
  /\ ~ In PyStr.comma (PyStr.lit "Drama").
Proof.
  assert (H : In (mkGenreRow (PyStr.lit "Drama") 500000 0)
                 (genre_data scenario))
    by (vm_compute; right; right; left; reflexivity).
  split; [exact H|].
  apply (@genre_labels_clean scenario _ H).
Defined.

(** *** Key metrics *)

Lemma show_key_metrics_inv (kobis_df k' : KobisFrame) (tmdb_df : TmdbFrame)
      (m : KeyMetrics) :
  show_key_metrics kobis_df tmdb_df = Some (m, k') ->
  top_korean_movie m
  = (if empty kobis_df then None else idxmax_row (rows kobis_df))
  /\ (empty kobis_df = false -> idxmax_row (rows kobis_df) <> None)
  /\ top_rating m
     = (if empty tmdb_df then Some 0%Q
        else Qmax_list (dropna (map vote_average (rows tmdb_df))))
  /\ yearly_audience m
     = map (fun g => (fst g, sum (map audiCnt (snd g))))
           (groupby Z.compare year (rows kobis_df))
  /\ monthly_releases m
     = (if has_open_dates kobis_df
        then Some (map (fun g => (fst g, length (snd g)))
                       (groupby Z.compare month (rows (assign_month kobis_df))))
        else None).
Proof.
  unfold show_key_metrics.
  destruct (empty kobis_df); simpl.
  - destruct (has_open_dates kobis_df), (empty tmdb_df); simpl;
      intros H; injection H as <- _; simpl; repeat split; discriminate.
  - destruct (idxmax_row (rows kobis_df)); simpl; [|discriminate].
    destruct (has_open_dates kobis_df), (empty tmdb_df); simpl;
      intros H; injection H as <- _; simpl; repeat split; discriminate.
Qed.

Lemma filter_head_split (A : Type) (p : A -> bool) (l t : list A) (x : A) :
  filter p l = x :: t ->
  exists l1 l2, l = l1 ++ x :: l2 /\ Forall (fun y => p y = false) l1.
Proof.
  induction l as [|y l IH]; simpl; [discriminate|].
  destruct (p y) eqn:E.
  - intros H. injection H as -> _. exists [], l. split; [reflexivity | constructor].
  - intros H. destruct (IH H) as (l1 & l2 & -> & F).
    exists (y :: l1), l2. split; [reflexivity | now constructor].
Qed.

(** The row [idxmax] picks: its value is present, no value of the frame
    is larger, and every row before it has a smaller value or none. *)
Lemma idxmax_row_first_max (l : list KobisRow) (r : KobisRow) :
  idxmax_row l = Some r ->
  exists v l1 l2,
    audiAcc r = Some v /\ l = l1 ++ r :: l2
    /\ (forall r' v', In r' l -> audiAcc r' = Some v' -> v' <= v)
    /\ (forall r' v', In r' l1 -> audiAcc r' = Some v' -> v' < v).
Proof.
  unfold idxmax_row. intros H.
  destruct (ranked audiAccQ l) as [|r0 rest] eqn:R; [discriminate|].
  injection H as ->.
  assert (Hin : In r (filter (valid audiAccQ) l)).
  { eapply Permutation_in; [apply ranked_perm|]. rewrite R. now left. }
  apply filter_In in Hin. destruct Hin as [Hin Hv].
  unfold valid, audiAccQ in Hv.
  destruct (audiAcc r) as [v|] eqn:Ev; [|discriminate]. clear Hv.
  assert (Hmax : forall r' v', In r' l -> audiAcc r' = Some v' -> v' <= v).
  { intros r' v' Hr' Ev'.
    assert (Hr : In r' (ranked audiAccQ l)).
    { eapply Permutation_in; [apply Permutation_sym, ranked_perm|].
      apply filter_In. split; [exact Hr'|].
      unfold valid, audiAccQ. now rewrite Ev'. }
    rewrite R in Hr.
    destruct Hr as [<-|Hr]; [assert (v' = v) by congruence; lia|].
    pose proof (ranked_sorted audiAccQ l) as S. rewrite R in S.
    inversion S as [|? ? _ Hall]; subst.
    rewrite Forall_forall in Hall. specialize (Hall _ Hr).
    unfold ranks_before, audiAccQ in Hall. rewrite Ev, Ev' in Hall.
    simpl in Hall. rewrite Zle_Qle. exact Hall. }
  pose proof (ranked_stable audiAccQ (inject_Z v) l) as St.
  rewrite R in St. simpl in St.
  unfold has_value at 1 in St. unfold audiAccQ at 1 in St.
  rewrite Ev in St. simpl in St. rewrite Qeq_bool_refl in St.
  symmetry in St. apply filter_head_split in St.
  destruct St as (l1 & l2 & El & F).
  exists v, l1, l2. repeat split; try assumption.
  intros r' v' Hr' Ev'.
  assert (Hle : v' <= v).
  { apply (Hmax r'); [|exact Ev']. rewrite El. apply in_or_app. now left. }
  rewrite Forall_forall in F. specialize (F _ Hr').
  unfold has_value, audiAccQ in F. rewrite Ev' in F. simpl in F.
  assert (v' <> v).
  { intros ->. now rewrite Qeq_bool_refl in F. }
  lia.
Qed.

(** X8.  The top film of the key metrics is the first record with the
    largest cumulative audience: its value is present, no record has a
    larger one, and the records before it have a smaller one or none.
    No top film is reported exactly when the frame has no records. *)
Theorem top_movie_first_maximum (kobis_df k' : KobisFrame) (tmdb_df : TmdbFrame)
        (m : KeyMetrics)
        (H : show_key_metrics kobis_df tmdb_df = Some (m, k')) :
  match top_korean_movie m with
  | None => rows kobis_df = []
  | Some r =>
      exists v l1 l2,
        audiAcc r = Some v /\ rows kobis_df = l1 ++ r :: l2
        /\ (forall r' v', In r' (rows kobis_df) -> audiAcc r' = Some v' -> v' <= v)
        /\ (forall r' v', In r' l1 -> audiAcc r' = Some v' -> v' < v)
  end.
Proof.
  apply show_key_metrics_inv in H. destruct H as (Ht & Hne & _).
  rewrite Ht. unfold empty in *.
  destruct (rows kobis_df) as [|r0 l] eqn:E; [reflexivity|].
  destruct (idxmax_row (r0 :: l)) as [r|] eqn:I.
  - now apply idxmax_row_first_max.
  - now elim (Hne eq_refl).
Qed.

Lemma top_movie_first_maximum_witness :
  show_key_metrics dated catalog = Some (dated_metrics, assign_month dated)
  /\ match top_korean_movie dated_metrics with
     | None => rows dated = []
     | Some r =>
         exists v l1 l2,
           audiAcc r = Some v /\ rows dated = l1 ++ r :: l2
           /\ (forall r' v', In r' (rows dated) -> audiAcc r' = Some v' -> v' <= v)
           /\ (forall r' v', In r' l1 -> audiAcc r' = Some v' -> v' < v)
     end.
Proof.
  assert (H : show_key_metrics dated catalog
              = Some (dated_metrics, assign_month dated)) by reflexivity.
  split; [exact H|].
  apply (@top_movie_first_maximum dated (assign_month dated) catalog
                                  dated_metrics H).
Defined.

Lemma sum_as_Zsum (A : Type) (f : A -> option Z) (l : list A) :
  sum (map f l) = Zsum (map (fun r => or_zero (f r)) l).
Proof.
  unfold sum. induction l as [|r l IH]; [reflexivity|].
  cbn [map]. rewrite Zsum_cons, <- IH. unfold dropna. cbn [flat_map].
  destruct (f r); cbn [app or_zero]; rewrite ?Zsum_cons; lia.
Qed.

Lemma length_as_Zsum (A : Type) (l : list A) :
  Z.of_nat (length l) = Zsum (map (fun _ => 1) l).
Proof.
  induction l as [|x l IH]; [reflexivity|].
  cbn [map length]. rewrite Zsum_cons, <- IH. lia.
Qed.

Lemma Zcompare_eq (a b : Z) : Z.compare a b = Eq <-> a = b.
Proof. apply Z.compare_eq_iff. Qed.

Lemma groupby_fst (A K B : Type) (cmp : K -> K -> comparison)
      (key : A -> option K) (h : K * list A -> B) (l : list A) :
  map fst (map (fun g => (fst g, h g)) (groupby cmp key l))
  = group_keys cmp key l.
Proof.
  unfold groupby. rewrite !map_map. simpl. apply map_id.
Qed.

Lemma dated_count (l : list KobisRow) :
  length (filter (fun x => notna (option_map d_month (openDt x))) l)
  = count (map openDt l).
Proof.
  unfold count, dropna. induction l as [|r l IH]; [reflexivity|].
  cbn [filter map flat_map].
  destruct (openDt r); cbn [option_map notna app length]; now rewrite IH.
Qed.

Lemma in_group_year (y : Z) (r : KobisRow) :
  in_group Z.compare year y r = in_year y r.
Proof.
  unfold in_group, in_year. destruct (year r) as [v|]; [|reflexivity].
  destruct (Z.eqb_spec v y) as [->|N]; [now rewrite Z.compare_refl|].
  destruct (Z.compare_spec y v); [now elim N | reflexivity | reflexivity].
Qed.

Lemma in_group_month (mo : Z) (r : KobisRow) :
  in_group Z.compare month mo (set_month (option_map d_month (openDt r)) r)
  = opened_in mo r.
Proof.
  unfold in_group, opened_in. cbn [month set_month].
  destruct (openDt r) as [d|]; [|reflexivity]. cbn [option_map].
  destruct (Z.eqb_spec (d_month d) mo) as [->|N]; [now rewrite Z.compare_refl|].
  destruct (Z.compare_spec mo (d_month d));
    [now elim N | reflexivity | reflexivity].
Qed.

Lemma Zlt_keys_sorted (A : Type) (key : A -> option Z) (l : list A) :
  StronglySorted Z.lt (group_keys Z.compare key l).
Proof.
  eapply sorted_impl;
    [|apply (@group_keys_sorted _ _ Z.compare key Zcompare_eq
               Zcompare_antisym Zcompare_trans)].
  intros a b H. exact H.
Qed.

(** X9.  The yearly audience table has exactly one row for each year that
    some record has, in ascending order of the year, and the row of a
    year holds the sum of the audience counts of the records of that
    year; the sums add up to the audience of the records that have a
    year.  The monthly release table is made exactly when the frame has
    the column of opening dates and a record with a valid opening date;
    it has exactly one row for each month in which some record opened,
    in ascending order, the row of a month holds the number of records
    opened in that month, and the counts add up to the number of records
    with a valid opening date. *)
Theorem key_metric_tables_add_up (kobis_df k' : KobisFrame) (tmdb_df : TmdbFrame)
        (m : KeyMetrics)
        (H : show_key_metrics kobis_df tmdb_df = Some (m, k')) :
  (forall y, In y (map fst (yearly_audience m))
             <-> exists r, In r (rows kobis_df) /\ year r = Some y)
  /\ (forall y v, In (y, v) (yearly_audience m) ->
                  v = sum (map audiCnt (filter (in_year y) (rows kobis_df))))
  /\ StronglySorted Z.lt (map fst (yearly_audience m))
  /\ NoDup (map fst (yearly_audience m))
  /\ Zsum (map snd (yearly_audience m))
     = sum (map audiCnt (filter (fun r => notna (year r)) (rows kobis_df)))
  /\ match monthly_releases m with
     | None => ~ dates_present kobis_df
     | Some months =>
         dates_present kobis_df
         /\ (forall mo, In mo (map fst months)
                        <-> exists r d, In r (rows kobis_df)
                                        /\ openDt r = Some d /\ d_month d = mo)
         /\ (forall mo n, In (mo, n) months ->
                          n = length (filter (opened_in mo) (rows kobis_df)))
         /\ StronglySorted Z.lt (map fst months)
         /\ NoDup (map fst months)
         /\ Zsum (map (fun e => Z.of_nat (snd e)) months)
            = Z.of_nat (count (map openDt (rows kobis_df)))
     end.
Proof.
  apply show_key_metrics_inv in H. destruct H as (_ & _ & _ & Hy & Hm).
  rewrite Hy, Hm. split; [|split; [|split; [|split; [|split]]]].
  - intros y. rewrite groupby_fst.
    apply (@group_keys_in _ _ Z.compare year Zcompare_eq).
  - intros y v Hin. apply in_map_iff in Hin. destruct Hin as [g [E Hg]].
    unfold groupby in Hg. apply in_map_iff in Hg. destruct Hg as [k0 [<- _]].
    cbn [fst snd] in E. injection E as <- <-.
    unfold get_group. do 2 f_equal. apply filter_ext. intros r.
    apply in_group_year.
  - rewrite groupby_fst. apply Zlt_keys_sorted.
  - rewrite groupby_fst.
    apply group_keys_nodup;
      [apply Zcompare_eq | apply Zcompare_antisym | apply Zcompare_trans].
  - rewrite map_map. cbn [snd].
    erewrite map_ext by (intros g; apply sum_as_Zsum).
    rewrite (@groupby_partition _ _ Z.compare year Zcompare_eq
               Zcompare_antisym Zcompare_trans (fun r => or_zero (audiCnt r))).
    now rewrite sum_as_Zsum.
  - pose proof (has_open_dates_iff kobis_df) as D.
    destruct (has_open_dates kobis_df).
    2: { intros P. apply D in P. discriminate. }
    split; [now apply D|].
    split; [|split; [|split; [|split]]].
    + intros mo. rewrite groupby_fst.
      rewrite (@group_keys_in _ _ Z.compare month Zcompare_eq).
      unfold assign_month. cbn [rows]. split.
      * intros [r' [Hin Hmo]]. apply in_map_iff in Hin.
        destruct Hin as [r [<- Hr]]. cbn [month set_month] in Hmo.
        destruct (openDt r) as [d|] eqn:E; [|discriminate].
        exists r, d. cbn [option_map] in Hmo. injection Hmo as Hmo.
        repeat split; assumption.
      * intros [r [d [Hr [E Hd]]]].
        exists (set_month (option_map d_month (openDt r)) r). split.
        -- apply in_map_iff. exists r. split; [reflexivity | exact Hr].
        -- cbn [month set_month]. rewrite E. cbn [option_map]. now rewrite Hd.
    + intros mo n Hin. apply in_map_iff in Hin. destruct Hin as [g [E Hg]].
      unfold groupby in Hg. apply in_map_iff in Hg. destruct Hg as [k0 [<- _]].
      cbn [fst snd] in E. injection E as <- <-.
      unfold get_group, assign_month. cbn [rows].
      rewrite filter_map_length. f_equal. apply filter_ext. intros r.
      apply in_group_month.
    + rewrite groupby_fst. apply Zlt_keys_sorted.
    + rewrite groupby_fst.
      apply group_keys_nodup;
        [apply Zcompare_eq | apply Zcompare_antisym | apply Zcompare_trans].
    + rewrite map_map. cbn [snd].
      erewrite map_ext by (intros g; apply length_as_Zsum).
      rewrite (@groupby_partition _ _ Z.compare month Zcompare_eq
                 Zcompare_antisym Zcompare_trans (fun _ => 1)).
      rewrite <- length_as_Zsum. f_equal.
      unfold assign_month. cbn [rows]. rewrite filter_map_length. cbn [month set_month].
      apply dated_count.
Qed.

Lemma key_metric_tables_add_up_witness :
  show_key_metrics dated catalog = Some (dated_metrics, assign_month dated)
  /\ NoDup (map fst (yearly_audience dated_metrics)).
Proof.
  assert (H : show_key_metrics dated catalog
              = Some (dated_metrics, assign_month dated)) by reflexivity.
  split; [exact H|].
  apply (@key_metric_tables_add_up dated (assign_month dated) catalog
                                   dated_metrics H).
Defined.

(** *** Loading *)

Lemma load_some (kobis_df : KobisFrame) (tmdb_df : TmdbFrame) :
  load_and_process_data (Some (kobis_df, tmdb_df))
  = if load_columns_present kobis_df tmdb_df
    then Some (select kobis_kept kobis_df, select tmdb_kept tmdb_df)
    else None.
Proof.
  unfold load_and_process_data, load_columns_present.
  destruct (forallb _ kobis_load_columns && forallb _ tmdb_load_columns);
    [|reflexivity].
  unfold select; simpl. rewrite !filter_filter_andb. reflexivity.
Qed.

Lemma forallb_false (A : Type) (p : A -> bool) (l : list A) :
  forallb p l = false <-> exists x, In x l /\ p x = false.
Proof.
  induction l as [|y l IH]; simpl.
  - split; [discriminate | intros [x [[] _]]].
  - rewrite andb_false_iff, IH. split.
    + intros [H|[x [Hin Hx]]]; [exists y; auto | exists x; auto].
    + intros [x [[<-|Hin] Hx]]; [now left | right; eauto].
Qed.

(** X10.  A load whose reading fails, or whose frames lack one of the
    columns it selects (year, openDt, audiCnt, salesAmt of the series;
    year, release_date, vote_average of the catalog), fails as a whole,
    whatever the rows hold: no frame is returned and the page stops.  A
    load that succeeds was therefore given all these columns, and
    returns frames that still hold them. *)
Theorem load_fails_on_missing_column (kobis_df : KobisFrame) (tmdb_df : TmdbFrame) :
  load_and_process_data None = None
  /\ ((exists c, In c kobis_load_columns /\ ~ In c (columns kobis_df))
      \/ (exists c, In c tmdb_load_columns /\ ~ In c (columns tmdb_df))
      -> load_and_process_data (Some (kobis_df, tmdb_df)) = None
         /\ main (Some (kobis_df, tmdb_df)) = None)
  /\ (forall k t,
         load_and_process_data (Some (kobis_df, tmdb_df)) = Some (k, t) ->
         (forall c, In c kobis_load_columns ->
                    In c (columns kobis_df) /\ In c (columns k))
         /\ (forall c, In c tmdb_load_columns ->
                       In c (columns tmdb_df) /\ In c (columns t))).
Proof.
  split; [reflexivity|].
  assert (P : load_columns_present kobis_df tmdb_df = true
              <-> (forall c, In c kobis_load_columns -> In c (columns kobis_df))
                  /\ (forall c, In c tmdb_load_columns -> In c (columns tmdb_df))).
  { unfold load_columns_present. rewrite andb_true_iff, !forallb_forall.
    split; intros [Hk Ht]; split; intros c Hc;
      apply has_column_in; auto. }
  split.
  - intros Hm.
    assert (E : load_and_process_data (Some (kobis_df, tmdb_df)) = None).
    { rewrite load_some.
      destruct (load_columns_present kobis_df tmdb_df); [|reflexivity].
      destruct (proj1 P eq_refl) as [Hk Ht].
      destruct Hm as [[c [Hc Hn]]|[c [Hc Hn]]]; elim Hn; auto. }
    split; [exact E|]. unfold main. now rewrite E.
  - intros k t L. pose proof L as L'. rewrite load_some in L'.
    destruct (load_columns_present kobis_df tmdb_df); [|discriminate].
    destruct (proj1 P eq_refl) as [Hk Ht].
    injection L' as <- <-. cbn [select columns]. split; intros c Hc; auto.
Qed.

Lemma select_idempotent (R : Type) (p : R -> bool) (df : DataFrame R) :
  select p (select p df) = select p df.
Proof.
  unfold select. simpl. f_equal. rewrite filter_filter_andb.
  apply filter_ext. intros x. now destruct (p x).
Qed.

(** X11.  Cleaning is idempotent: loading what a load returned gives it back
    unchanged. *)
Theorem load_idempotent (kobis_df k : KobisFrame) (tmdb_df t : TmdbFrame)
        (H : load_and_process_data (Some (kobis_df, tmdb_df)) = Some (k, t)) :
  load_and_process_data (Some (k, t)) = Some (k, t).
Proof.
  rewrite load_some in H. rewrite load_some.
  destruct (load_columns_present kobis_df tmdb_df) eqn:G; [|discriminate].
  injection H as <- <-.
  assert (G' : load_columns_present (select kobis_kept kobis_df)
                                    (select tmdb_kept tmdb_df) = true)
    by exact G.
  rewrite G', !select_idempotent. reflexivity.
Qed.

Lemma load_idempotent_witness :
  load_and_process_data (Some (scenario, catalog)) = Some (scenario, catalog_clean)
  /\ load_and_process_data (Some (scenario, catalog_clean))
     = Some (scenario, catalog_clean).
Proof.
  assert (H : load_and_process_data (Some (scenario, catalog))
              = Some (scenario, catalog_clean)) by reflexivity.
  split; [exact H|].
  apply (@load_idempotent scenario scenario catalog catalog_clean H).
Defined.

(** *** Rows of a ranking *)

Lemma filter_split_perm (A : Type) (p : A -> bool) (l : list A) :
  Permutation (filter p l ++ filter (fun x => negb (p x)) l) l.
Proof.
  induction l as [|x l IH]; [constructor|].
  simpl. destruct (p x); simpl.
  - now apply perm_skip.
  - eapply perm_trans; [apply Permutation_sym, Permutation_middle|].
    now apply perm_skip.
Qed.

Lemma ranking_perm (A : Type) (key : A -> option Q) (l : list A) :
  Permutation (ranked key l ++ nan_rows key l) l.
Proof.
  eapply perm_trans; [|apply (filter_split_perm (valid key))].
  apply Permutation_app; [apply ranked_perm | apply Permutation_refl].
Qed.

(** X12.  Top-N takes its rows from the input, each as often as it occurs
    there: with the rows it leaves out, as many as exceed n, it is a
    rearrangement of the input. *)
Theorem top_n_and_rest (A : Type) (key : A -> option Q) (n : nat) (l : list A) :
  exists rest,
    Permutation (nlargest key n l ++ rest) l
    /\ length rest = (length l - n)%nat.
Proof.
  exists (skipn n (ranked key l ++ nan_rows key l)). split.
  - unfold nlargest. rewrite firstn_skipn. apply ranking_perm.
  - rewrite length_skipn, (Permutation_length (ranking_perm key l)).
    reflexivity.
Qed.

Lemma nlargest_in (A : Type) (key : A -> option Q) (n : nat) (l : list A)
      (r : A) :
  In r (nlargest key n l) -> In r l.
Proof.
  intros H. apply in_firstn in H.
  eapply Permutation_in; [apply ranking_perm | exact H].
Qed.

Lemma nan_rows_none (A : Type) (key : A -> option Q) (l : list A) :
  Forall (fun r => key r <> None) l -> nan_rows key l = [].
Proof.
  unfold nan_rows. induction 1 as [|r l Hr _ IH]; [reflexivity|].
  simpl. destruct (key r); [exact IH | now elim Hr].
Qed.

(** X13.  After a successful load every entry of the catalog, and of any
    selection of it, is rated: the rating Top 10 then holds rated
    entries only, ratings within [0,10], in descending order, ten of
    them or all. *)
Theorem rated_top10_after_load (kobis_df k : KobisFrame) (tmdb_df t : TmdbFrame)
        (p : TmdbRow -> bool)
        (H : load_and_process_data (Some (kobis_df, tmdb_df)) = Some (k, t)) :
  let top := nlargest vote_average 10 (rows (select p t)) in
  Forall (fun r => exists v, vote_average r = Some v
                             /\ (0 <= v)%Q /\ (v <= 10)%Q) top
  /\ StronglySorted (ranks_before vote_average) top
  /\ length top = Nat.min 10 (length (rows (select p t))).
Proof.
  intros top.
  assert (Hall : Forall (fun r => exists v, vote_average r = Some v
                                            /\ (0 <= v)%Q /\ (v <= 10)%Q)
                        (rows (select p t))).
  { apply load_inv in H. destruct H as [_ ->]. simpl.
    apply Forall_forall. intros r Hr.
    apply filter_In in Hr. destruct Hr as [Hr _].
    apply filter_In in Hr. destruct Hr as [_ Hr].
    apply tmdb_kept_iff in Hr. destruct Hr as (y & v & _ & _ & Hv & H0 & H10).
    exists v. auto. }
  assert (Hnan : nan_rows vote_average (rows (select p t)) = []).
  { apply nan_rows_none. eapply Forall_impl; [|exact Hall].
    intros r [v [Hv _]]. congruence. }
  assert (Etop : top = firstn 10 (ranked vote_average (rows (select p t)))).
  { unfold top, nlargest. now rewrite Hnan, app_nil_r. }
  split; [|split].
  - apply Forall_forall. intros r Hr. rewrite Forall_forall in Hall.
    apply Hall. eapply nlargest_in. exact Hr.
  - rewrite Etop. apply sorted_firstn, ranked_sorted.
  - unfold top, nlargest.
    rewrite length_firstn, (Permutation_length (ranking_perm _ _)).
    reflexivity.
Qed.

Lemma rated_top10_after_load_witness :
  load_and_process_data (Some (scenario, catalog)) = Some (scenario, catalog_clean)
  /\ length (nlargest vote_average 10 (rows (select (fun _ => true) catalog_clean)))
     = Nat.min 10 (length (rows (select (fun _ => true) catalog_clean))).
Proof.
  assert (H : load_and_process_data (Some (scenario, catalog))
              = Some (scenario, catalog_clean)) by reflexivity.
  split; [exact H|].
  apply (@rated_top10_after_load scenario scenario catalog catalog_clean
                                 (fun _ => true) H).
Defined.

(** *** The derived column, assigned twice *)

Lemma has_column_app (R : Type) (c : string) (cols extra : list string)
      (l : list R) :
  has_column c (mkFrame (cols ++ extra) l)
  = has_column c (mkFrame cols l) || existsb (String.eqb c) extra.
Proof. unfold has_column. simpl. apply existsb_app. Qed.

Lemma assign_month_has_month (kobis_df : KobisFrame) :
  has_column "month" (assign_month kobis_df) = true.
Proof.
  unfold assign_month.
  destruct (has_column "month" kobis_df) eqn:E.
  - unfold has_column in *. simpl. exact E.
  - rewrite has_column_app. simpl. apply orb_true_r.
Qed.

Lemma assign_month_idempotent (kobis_df : KobisFrame) :
  assign_month (assign_month kobis_df) = assign_month kobis_df.
Proof.
  unfold assign_month at 1. rewrite assign_month_has_month.
  unfold assign_month. simpl. f_equal. rewrite map_map. reflexivity.
Qed.

Lemma assign_month_open_dates (kobis_df : KobisFrame) :
  has_open_dates (assign_month kobis_df) = has_open_dates kobis_df.
Proof.
  unfold has_open_dates. f_equal.
  - unfold assign_month. destruct (has_column "month" kobis_df); [reflexivity|].
    rewrite has_column_app. simpl. now rewrite orb_false_r.
  - unfold assign_month. simpl. now rewrite map_map.
Qed.

(** X14.  After the key metrics the insight computation leaves the frame as
    it finds it: assigning the derived column a second time changes
    nothing. *)
Theorem insights_after_key_metrics (kobis_df k' : KobisFrame)
        (tmdb_df : TmdbFrame) (m : KeyMetrics)
        (H : show_key_metrics kobis_df tmdb_df = Some (m, k')) :
  assign_month (assign_month kobis_df) = assign_month kobis_df
  /\ exists i, show_insights k' tmdb_df = Some (i, k').
Proof.
  split; [apply assign_month_idempotent|].
  pose proof (show_key_metrics_frame kobis_df tmdb_df) as F.
  rewrite H in F. simpl in F.
  destruct (negb (empty kobis_df) && isna_all (map audiAcc (rows kobis_df)));
    [discriminate|].
  injection F as ->.
  destruct (show_insights_frame
              (if has_open_dates kobis_df then assign_month kobis_df
               else kobis_df) tmdb_df) as [i Hi].
  exists i. rewrite Hi. f_equal. f_equal.
  destruct (has_open_dates kobis_df) eqn:D.
  - rewrite assign_month_open_dates, D. apply assign_month_idempotent.
  - now rewrite D.
Qed.

Lemma insights_after_key_metrics_witness :
  show_key_metrics dated catalog = Some (dated_metrics, assign_month dated)
  /\ assign_month (assign_month dated) = assign_month dated.
Proof.
  assert (H : show_key_metrics dated catalog
              = Some (dated_metrics, assign_month dated)) by reflexivity.
  split; [exact H|].
  apply (@insights_after_key_metrics dated (assign_month dated) catalog
                                     dated_metrics H).
Defined.

(** *** The best rating *)

Lemma Qmax_fold (l : list Q) (x : Q) :
  let m := fold_left (fun m y => if Qle_bool m y then y else m) l x in
  (m = x \/ In m l) /\ (x <= m)%Q /\ Forall (fun y => (y <= m)%Q) l.
Proof.
  revert x. induction l as [|y l IH]; intros x; simpl.
  - repeat split; [now left | apply Qle_refl | constructor].
  - destruct (IH (if Qle_bool x y then y else x)) as (Hin & Hle & Hall).
    destruct (Qle_bool x y) eqn:E.
    + apply Qle_bool_iff in E. repeat split.
      * destruct Hin as [->|Hin]; auto.
      * eapply Qle_trans; eassumption.
      * constructor; assumption.
    + assert (Hyx : (y <= x)%Q).
      { apply Qlt_le_weak, Qnot_le_lt. intros C.
        apply Qle_bool_iff in C. congruence. }
      repeat split.
      * destruct Hin as [->|Hin]; auto.
      * exact Hle.
      * constructor; [eapply Qle_trans; eassumption | exact Hall].
Qed.

Lemma Qmax_list_spec (l : list Q) :
  match Qmax_list l with
  | None => l = []
  | Some m => In m l /\ Forall (fun y => (y <= m)%Q) l
  end.
Proof.
  destruct l as [|x l]; simpl; [reflexivity|].
  destruct (Qmax_fold l x) as (Hin & Hle & Hall).
  split; [|now constructor].
  destruct Hin as [E|Hin]; [left; now symmetry | now right].
Qed.

Lemma in_dropna (A B : Type) (f : A -> option B) (l : list A) (v : B) :
  In v (dropna (map f l)) <-> exists r, In r l /\ f r = Some v.
Proof.
  unfold dropna. rewrite in_flat_map. split.
  - intros [o [Ho Hv]]. apply in_map_iff in Ho. destruct Ho as [r [<- Hr]].
    destruct (f r) as [b|] eqn:E; [|destruct Hv].
    destruct Hv as [<-|[]]. exists r. auto.
  - intros [r [Hr Hf]]. exists (f r). split; [now apply in_map|].
    rewrite Hf. now left.
Qed.

(** X15.  The best rating of the key metrics is the rating of some entry, and
    no entry is rated higher.  It is 0 for a catalog without entries and
    missing when no entry of the catalog is rated. *)
Theorem top_rating_is_maximum (kobis_df k' : KobisFrame) (tmdb_df : TmdbFrame)
        (m : KeyMetrics)
        (H : show_key_metrics kobis_df tmdb_df = Some (m, k')) :
  match rows tmdb_df, top_rating m with
  | [], best => best = Some 0%Q
  | _ :: _, None => isna_all (map vote_average (rows tmdb_df)) = true
  | _ :: _, Some best =>
      (exists r, In r (rows tmdb_df) /\ vote_average r = Some best)
      /\ (forall r v, In r (rows tmdb_df) -> vote_average r = Some v ->
                      (v <= best)%Q)
  end.
Proof.
  apply show_key_metrics_inv in H. destruct H as (_ & _ & Ht & _).
  rewrite Ht. unfold empty.
  destruct (rows tmdb_df) as [|r0 l] eqn:E; [reflexivity|].
  pose proof (Qmax_list_spec (dropna (map vote_average (r0 :: l)))) as S.
  destruct (Qmax_list (dropna (map vote_average (r0 :: l)))) as [best|].
  - destruct S as [Hin Hall]. split.
    + now apply in_dropna.
    + intros r v Hr Hv. rewrite Forall_forall in Hall.
      apply Hall. apply in_dropna. eauto.
  - apply count_zero_isna. unfold count. now rewrite S.
Qed.

Lemma top_rating_is_maximum_witness :
  show_key_metrics dated catalog = Some (dated_metrics, assign_month dated)
  /\ match rows catalog, top_rating dated_metrics with
     | [], best => best = Some 0%Q
     | _ :: _, None => isna_all (map vote_average (rows catalog)) = true
     | _ :: _, Some best =>
         (exists r, In r (rows catalog) /\ vote_average r = Some best)
         /\ (forall r v, In r (rows catalog) -> vote_average r = Some v ->
                         (v <= best)%Q)
     end.
Proof.
  assert (H : show_key_metrics dated catalog
              = Some (dated_metrics, assign_month dated)) by reflexivity.
  split; [exact H|].
  apply (@top_rating_is_maximum dated (assign_month dated) catalog
                                dated_metrics H).
Defined.

(** *** The page as a whole *)

Lemma show_key_metrics_none (kobis_df : KobisFrame) (tmdb_df : TmdbFrame) :
  show_key_metrics kobis_df tmdb_df = None
  <-> rows kobis_df <> []
      /\ isna_all (map audiAcc (rows kobis_df)) = true.
Proof.
  pose proof (show_key_metrics_frame kobis_df tmdb_df) as F.
  unfold empty in F.
  remember (isna_all (map audiAcc (rows kobis_df))) as c eqn:Ec.
  destruct (show_key_metrics kobis_df tmdb_df) as [[m k']|];
    destruct (rows kobis_df) as [|r l]; destruct c; cbn in F;
    try discriminate F.
  - split; [discriminate | intros [Hne _]; now elim Hne].
  - split; [discriminate | intros [Hne _]; now elim Hne].
  - split; [discriminate | intros [_ Hna]; discriminate].
  - split; [intros _; split; [discriminate | reflexivity] | reflexivity].
Qed.

Lemma numbered_in (A : Type) (l : list A) (e : nat * A) :
  In e (numbered l) -> In (snd e) l.
Proof.
  unfold numbered. destruct e as [i x]. intros H.
  now apply in_combine_r in H.
Qed.

(** The Top 10 table is built whenever every record has a year. *)
Lemma show_korean_analysis_returns (kobis_df : KobisFrame) :
  Forall (fun r => year r <> None) (rows kobis_df) ->
  show_korean_analysis kobis_df <> None.
Proof.
  intros Hy. unfold show_korean_analysis.
  destruct (empty kobis_df); [discriminate|].
  assert (C : years_castable (top_movies kobis_df) = true).
  { unfold years_castable. apply forallb_forall. intros e He.
    unfold top_movies in He. apply numbered_in, nlargest_in in He.
    rewrite Forall_forall in Hy. specialize (Hy _ He).
    now destruct (year (snd e)). }
  rewrite C. discriminate.
Qed.

Lemma recent_has_year (r : KobisRow) : recent r = true -> year r <> None.
Proof. unfold recent, cell_isin. now destruct (year r). Qed.

(** X16.  When the load succeeds and the loaded frames hold every column
    the page reads, the computations of the four tabs raise in one case
    only: the records of the recent years are there and none of them has
    a cumulative audience (the top film lookup of the first tab raises).
    In particular the year cast of the Top 10 table never raises on the
    records of the recent years, and the rates never divide by zero. *)
Theorem main_fails_only (kobis_df k : KobisFrame) (tmdb_df t : TmdbFrame)
        (Hload : load_and_process_data (Some (kobis_df, tmdb_df)) = Some (k, t))
        (Hcols : page_columns_present k t = true) :
  (main (Some (kobis_df, tmdb_df)) = None
   <-> rows (select recent k) <> []
       /\ isna_all (map audiAcc (rows (select recent k))) = true)
  /\ (forall k1 m, show_key_metrics (select recent k) (select recent_entry t)
                   = Some (m, k1) ->
                   show_korean_analysis k1 <> None
                   /\ show_insights k1 (select recent_entry t) <> None).
Proof.
  assert (Hy : forall K',
             K' = (if has_open_dates (select recent k)
                   then assign_month (select recent k) else select recent k) ->
             Forall (fun r => year r <> None) (rows K')).
  { intros K' ->.
    assert (HyK : Forall (fun r => year r <> None) (rows (select recent k))).
    { simpl. apply Forall_forall. intros r Hr.
      apply filter_In in Hr. now apply recent_has_year. }
    destruct (has_open_dates (select recent k)); [|exact HyK].
    unfold assign_month. cbn [rows]. apply Forall_map. simpl. exact HyK. }
  assert (HK : forall k1 m,
             show_key_metrics (select recent k) (select recent_entry t)
             = Some (m, k1) ->
             k1 = (if has_open_dates (select recent k)
                   then assign_month (select recent k) else select recent k)).
  { intros k1 m S1.
    pose proof (show_key_metrics_frame (select recent k)
                                       (select recent_entry t)) as F.
    rewrite S1 in F. cbn [option_map snd] in F.
    destruct (negb (empty (select recent k))
              && isna_all (map audiAcc (rows (select recent k))));
      [discriminate | now injection F]. }
  split.
  - unfold main. rewrite Hload. cbn [bind].
    fold recent. fold recent_entry.
    set (K := select recent k) in *.
    set (T := select recent_entry t) in *.
    destruct (show_key_metrics K T) as [[t1 K']|] eqn:S1; cbn [bind].
    + pose proof (show_korean_analysis_returns _ (Hy _ (HK _ _ eq_refl))) as S2.
      destruct (show_korean_analysis K') as [t2|]; [|now elim S2]. cbn [bind].
      destruct (show_insights_frame K' T) as [i Hi]. rewrite Hi. cbn [bind].
      split; [discriminate|].
      intros [Hne Hna].
      assert (N : show_key_metrics K T = None)
        by (apply show_key_metrics_none; split; assumption).
      congruence.
    + split; [|reflexivity]. intros _.
      apply show_key_metrics_none in S1. exact S1.
  - intros k1 m S1. split.
    + apply show_korean_analysis_returns. exact (Hy _ (HK _ _ S1)).
    + destruct (show_insights_frame k1 (select recent_entry t)) as [i Hi].
      rewrite Hi. discriminate.
Qed.

Lemma main_fails_only_witness :
  load_and_process_data (Some (dated, catalog)) = Some (dated, catalog_clean)
  /\ page_columns_present dated catalog_clean = true
  /\ main (Some (dated, catalog)) <> None.
Proof.
  assert (L : load_and_process_data (Some (dated, catalog))
              = Some (dated, catalog_clean)) by reflexivity.
  assert (C : page_columns_present dated catalog_clean = true) by reflexivity.
  split; [exact L|]. split; [exact C|].
  intros E.
  apply (proj1 (@main_fails_only dated dated catalog catalog_clean L C)) in E.
  destruct E as [_ E]. vm_compute in E. discriminate E.
Defined.

Lemma genre_summary_top8_witness :
  genre_summary scenario = Some [drama_summary; action_summary]
  /\ length [drama_summary; action_summary]
     = Nat.min 8 (length (genre_agg (genre_data scenario))).
Proof.
  assert (H : genre_summary scenario = Some [drama_summary; action_summary])
    by (vm_compute; reflexivity).
  split; [exact H|].
  apply (@genre_summary_top8 scenario [drama_summary; action_summary] H).
Defined.

Lemma lang_analysis_top10_witness :
  lang_analysis catalog = Some catalog_languages
  /\ has_column "original_language" catalog = true.
Proof.
  assert (H : lang_analysis catalog = Some catalog_languages)
    by (vm_compute; reflexivity).
  split; [exact H|].
  apply (@lang_analysis_top10 catalog catalog_languages H).
Defined.

(** *** Insight boxes *)

Lemma rate_exact (count total : Z) (q : Q) :
  0 <= count <= total -> rate count total = Some q ->
  (q * inject_Z total == 100 * inject_Z count)%Q.
Proof.
  intros Hc Hq. destruct (rate_percentage Hc) as (q' & Eq & _ & _ & E).
  rewrite Hq in Eq. injection Eq as <-. exact E.
Qed.

Lemma open_dates_counted (kobis_df : KobisFrame) :
  has_open_dates kobis_df = true -> 0 < total_with_date (assign_month kobis_df).
Proof.
  unfold has_open_dates, total_with_date, len, assign_month. simpl.
  intros H. apply andb_true_iff in H. destruct H as [_ H].
  rewrite filter_map_length. simpl.
  induction (rows kobis_df) as [|r l IH]; [discriminate|].
  simpl in *. destruct (openDt r); simpl in *; [lia|].
  specialize (IH H). lia.
Qed.

(** X17.  An insight box is left out rather than filled with the sentinel: the
    blockbuster rate is absent exactly for a frame without records, the
    summer rate exactly when no record has a valid opening date, the
    quality rate exactly for a catalog without entries.  A rate that is
    present has a positive denominator and is 100 times the share of the
    counted records. *)
Theorem insight_boxes (kobis_df k' : KobisFrame) (tmdb_df : TmdbFrame)
        (i : Insights)
        (H : show_insights kobis_df tmdb_df = Some (i, k')) :
  match i_blockbuster_rate i with
  | None => rows kobis_df = []
  | Some q =>
      0 < total_movies kobis_df
      /\ (q * inject_Z (total_movies kobis_df)
          == 100 * inject_Z (blockbuster_count kobis_df))%Q
  end
  /\ match i_summer_rate i with
     | None => has_open_dates kobis_df = false
     | Some q =>
         0 < total_with_date (assign_month kobis_df)
         /\ (q * inject_Z (total_with_date (assign_month kobis_df))
             == 100 * inject_Z (summer_movies (assign_month kobis_df)))%Q
     end
  /\ match i_quality_rate i with
     | None => rows tmdb_df = []
     | Some q =>
         0 < len (rows tmdb_df)
         /\ (q * inject_Z (len (rows tmdb_df))
             == 100 * inject_Z (high_rated tmdb_df))%Q
     end.
Proof.
  unfold show_insights in H.
  assert (Bk : forall q, blockbuster_rate kobis_df = Some q ->
                         (q * inject_Z (total_movies kobis_df)
                          == 100 * inject_Z (blockbuster_count kobis_df))%Q)
    by (intros q; apply rate_exact, blockbuster_part).
  assert (Su : forall q, summer_rate (assign_month kobis_df) = Some q ->
                         (q * inject_Z (total_with_date (assign_month kobis_df))
                          == 100 * inject_Z (summer_movies (assign_month kobis_df)))%Q)
    by (intros q; apply rate_exact, summer_part).
  assert (Qu : forall q, quality_rate tmdb_df = Some q ->
                         (q * inject_Z (len (rows tmdb_df))
                          == 100 * inject_Z (high_rated tmdb_df))%Q)
    by (intros q; apply rate_exact, quality_part).
  pose proof (@open_dates_counted kobis_df) as Od.
  pose proof (@has_open_dates_nonempty kobis_df) as Ne.
  unfold empty, total_movies, len in *.
  destruct (rows kobis_df) as [|r0 l0] eqn:Ek;
    destruct (rows tmdb_df) as [|e0 m0] eqn:Et;
    destruct (has_open_dates kobis_df) eqn:D;
    try (specialize (Ne eq_refl); discriminate Ne);
    cbn [negb bind] in H;
    repeat match type of H with
           | context [blockbuster_rate kobis_df] =>
               destruct (blockbuster_rate kobis_df) as [b|] eqn:Eb;
               cbn [bind] in H; [|discriminate H]
           | context [summer_rate (assign_month kobis_df)] =>
               destruct (summer_rate (assign_month kobis_df)) as [s|] eqn:Es;
               cbn [bind] in H; [|discriminate H]
           | context [quality_rate tmdb_df] =>
               destruct (quality_rate tmdb_df) as [q|] eqn:Eq;
               cbn [bind] in H; [|discriminate H]
           end;
    injection H as <- _; cbn;
    repeat split; auto; cbn [length]; lia.
Qed.

Lemma insight_boxes_witness :
  show_insights dated catalog = Some (dated_insights, assign_month dated)
  /\ match i_quality_rate dated_insights with
     | None => rows catalog = []
     | Some q =>
         0 < len (rows catalog)
         /\ (q * inject_Z (len (rows catalog))
             == 100 * inject_Z (high_rated catalog))%Q
     end.
Proof.
  assert (H : show_insights dated catalog
              = Some (dated_insights, assign_month dated))
    by (vm_compute; reflexivity).
  split; [exact H|].
  apply (@insight_boxes dated (assign_month dated) catalog dated_insights H).
Defined.

(** *** Ranks *)

Lemma numbered_ranks (A : Type) (l : list A) :
  map fst (numbered l) = seq 1 (length l).
Proof.
  unfold numbered. generalize 1%nat.
  induction l as [|x l IH]; intros a; simpl; [reflexivity|].
  now rewrite IH.
Qed.

(** X18.  The ranks of the Top 10 table are 1, 2, ... without gaps, one per
    listed record, so records of equal audience get different ranks; the
    table lists ten records, or all when the frame has fewer. *)
Theorem top_movies_ranks (kobis_df : KobisFrame) :
  map fst (top_movies kobis_df)
  = seq 1 (Nat.min 10 (length (rows kobis_df)))
  /\ length (top_movies kobis_df) = Nat.min 10 (length (rows kobis_df)).
Proof.
  assert (L : length (nlargest audiAccQ 10 (rows kobis_df))
              = Nat.min 10 (length (rows kobis_df))).
  { unfold nlargest.
    rewrite length_firstn, (Permutation_length (ranking_perm _ _)).
    reflexivity. }
  unfold top_movies. split.
  - now rewrite numbered_ranks, L.
  - rewrite <- L, <- (length_map snd). now rewrite numbered_rows.
Qed.
